(** * Bildkompressor: the ingestion and compression pipeline

    A shallow embedding of [Bildkompressor.py]: the SQLite table behind
    [ImageDatabase], the files under [stored_images], the drop handler
    [DragDropWidget.dropEvent] and the batch [MainWindow.compress_all_images].

    Qt is reduced to the message boxes the two handlers open and to the list
    the table model shows.  SQLite and Pillow are modelled as far as the
    program can tell them apart: the UNIQUE column, AUTOINCREMENT and its
    last key; which conversions and encodings Pillow has, and what a failed
    [save] leaves behind.  Paths are the strings the program builds: two
    paths name the same file when they are the same string. *)

From stdpp Require Import gmap strings list fin_maps sorting pretty.
From Stdlib Require Import ZArith Ascii.
From Stdlib Require String.

Local Open Scope Z_scope.
Local Open Scope string_scope.
Local Open Scope list_scope.

(** ** Python strings and [os.path] (the POSIX flavour) *)

Module Py.

(** [s[i:]] and [s[:i]] for an index [0 <= i]. *)
Fixpoint drop (n : nat) (s : string) : string :=
  match n, s with
  | O, _ => s
  | S k, String _ rest => drop k rest
  | S _, EmptyString => EmptyString
  end.

Fixpoint take (n : nat) (s : string) : string :=
  match n, s with
  | O, _ => EmptyString
  | S k, String c rest => String c (take k rest)
  | S _, EmptyString => EmptyString
  end.

(** [s.rfind(c)]: the highest index of [c] in [s], or [-1]. *)
Fixpoint rfind (c : ascii) (s : string) : Z :=
  match s with
  | EmptyString => -1
  | String d rest =>
      let r := rfind c rest in
      if Z.leb 0 r then r + 1
      else if Ascii.eqb c d then 0 else -1
  end.

Definition startswith (c : ascii) (s : string) : bool :=
  match s with
  | String d _ => Ascii.eqb c d
  | EmptyString => false
  end.

Fixpoint endswith (c : ascii) (s : string) : bool :=
  match s with
  | EmptyString => false
  | String d EmptyString => Ascii.eqb c d
  | String _ rest => endswith c rest
  end.

(** [str.lower] on ASCII letters; other bytes are kept. *)
Definition lower_char (c : ascii) : ascii :=
  let n := nat_of_ascii c in
  if (Nat.leb 65 n && Nat.leb n 90)%bool then ascii_of_nat (n + 32) else c.

Fixpoint lower (s : string) : string :=
  match s with
  | EmptyString => EmptyString
  | String c rest => String (lower_char c) (lower rest)
  end.

(** [posixpath.basename]: [i = p.rfind('/') + 1; return p[i:]]. *)
Definition basename (p : string) : string :=
  let i := rfind "/" p + 1 in
  drop (Z.to_nat i) p.

(** The loop of [genericpath._splitext] that skips leading dots: is there a
    character other than ['.'] at an index in [[from, from + len)]? *)
Fixpoint all_dots (s : string) : bool :=
  match s with
  | EmptyString => true
  | String c rest => Ascii.eqb "." c && all_dots rest
  end.

Definition has_non_dot (from len : nat) (p : string) : bool :=
  negb (all_dots (take len (drop from p))).

(** [posixpath.splitext]. *)
Definition splitext (p : string) : string * string :=
  let sepIndex := rfind "/" p in
  let dotIndex := rfind "." p in
  if Z.ltb sepIndex dotIndex then
    let filenameIndex := sepIndex + 1 in
    if has_non_dot (Z.to_nat filenameIndex) (Z.to_nat (dotIndex - filenameIndex)) p
    then (take (Z.to_nat dotIndex) p, drop (Z.to_nat dotIndex) p)
    else (p, EmptyString)
  else (p, EmptyString).

(** [posixpath.join(a, b)] for two components. *)
Definition join (a b : string) : string :=
  if startswith "/" b then b
  else if (String.eqb a EmptyString || endswith "/" a)%bool then a +:+ b
  else a +:+ "/" +:+ b.

End Py.

(** ** Pictures and files *)

(** Pillow's image modes ([Image.mode]). *)
Inductive mode :=
| M_1 | M_L | M_P | M_RGB | M_RGBA | M_CMYK | M_YCbCr | M_LAB | M_HSV
| M_I | M_F | M_LA | M_PA | M_RGBX | M_RGBa | M_La
| M_I16 | M_I16L | M_I16B | M_I16N.

Global Instance mode_eq_dec : EqDecision mode.
Proof. solve_decision. Defined.

(** The mode strings the program compares against. *)
Definition mode_name (m : mode) : string :=
  match m with
  | M_1 => "1" | M_L => "L" | M_P => "P" | M_RGB => "RGB" | M_RGBA => "RGBA"
  | M_CMYK => "CMYK" | M_YCbCr => "YCbCr" | M_LAB => "LAB" | M_HSV => "HSV"
  | M_I => "I" | M_F => "F" | M_LA => "LA" | M_PA => "PA" | M_RGBX => "RGBX"
  | M_RGBa => "RGBa" | M_La => "La"
  | M_I16 => "I;16" | M_I16L => "I;16L" | M_I16B => "I;16B" | M_I16N => "I;16N"
  end.

(** [Image.getbands]: the channels of a mode. *)
Definition bands (m : mode) : list string :=
  match m with
  | M_1 => ["1"] | M_L => ["L"] | M_P => ["P"]
  | M_RGB => ["R"; "G"; "B"] | M_RGBA => ["R"; "G"; "B"; "A"]
  | M_CMYK => ["C"; "M"; "Y"; "K"] | M_YCbCr => ["Y"; "Cb"; "Cr"]
  | M_LAB => ["L"; "A"; "B"] | M_HSV => ["H"; "S"; "V"]
  | M_I => ["I"] | M_F => ["F"]
  | M_LA => ["L"; "A"] | M_PA => ["P"; "A"]
  | M_RGBX => ["R"; "G"; "B"; "X"] | M_RGBa => ["R"; "G"; "B"; "a"]
  | M_La => ["L"; "a"]
  | M_I16 | M_I16L | M_I16B | M_I16N => ["I"]
  end.

(** A mode with three or more channels stores colour: RGB and its variants,
    CMYK, YCbCr, LAB, HSV. *)
Definition multi_channel_color (m : mode) : Prop := (3 <= length (bands m))%nat.
Definition single_channel (m : mode) : Prop := length (bands m) = 1%nat.

(** A decoded picture: its mode, and a name for its pixels. *)
Record image := Image { im_mode : mode; im_pixels : string }.

(** The output formats the settings dialog offers. *)
Inductive Format := JPEG | PNG | WEBP | BMP.

Global Instance Format_eq_dec : EqDecision Format.
Proof. solve_decision. Defined.

Definition format_name (f : Format) : string :=
  match f with JPEG => "JPEG" | PNG => "PNG" | WEBP => "WEBP" | BMP => "BMP" end.

(** Values of the keyword arguments handed to [img.save]. *)
Inductive pyval := PyInt (n : Z) | PyBool (b : bool).

(** What a path holds: a picture, with the format and keyword arguments of the
    [save] that wrote it (none for a file that came from outside), or bytes
    that do not decode as a picture. *)
Inductive file :=
| Picture (im : image) (written : option (Format * gmap string pyval))
| Blob (bytes : string).

(** ** The [images] table *)

(** One row without its key: columns [filename] and [filepath]. *)
Record entry := Entry { filename : string; filepath : string }.

(** The table maps the primary key [id] to the row; [sqlite_sequence] is the
    counter AUTOINCREMENT keeps. *)
Record table := Table { rows : gmap Z entry; sqlite_sequence : Z }.

(** A row as [fetchall] returns it. *)
Definition record : Type := Z * string * string.

(** The UNIQUE constraint on [filepath], as a property of a table. *)
Definition unique_paths (t : table) : Prop :=
  ∀ i j a b, rows t !! i = Some a → rows t !! j = Some b →
    filepath a = filepath b → i = j.

(** Some row other than [skip] has [filepath = p]. *)
Definition path_held_by_other (skip : option Z) (p : string) (t : table) : Prop :=
  map_Exists (λ i e, Some i ≠ skip ∧ filepath e = p) (rows t).

(** The key AUTOINCREMENT picks: one more than the largest key that is, or
    ever was, in the table. *)
Definition next_rowid (t : table) : Z :=
  foldr Z.max (sqlite_sequence t) (map_to_list (rows t)).*1 + 1.

(** The largest key there is: a rowid is a signed 64-bit integer. *)
Definition max_rowid : Z := 9223372036854775807.

(** [ORDER BY id DESC]. *)
Definition id_desc (a b : Z * entry) : Prop := a.1 >= b.1.

Definition select_all_desc (t : table) : list record :=
  (λ r : Z * entry, (r.1, filename r.2, filepath r.2))
    <$> merge_sort id_desc (map_to_list (rows t)).

(** ** Exceptions, messages, and the state the handlers work on *)

Inductive exn :=
| FileNotFoundError (path : string)
| UnidentifiedImageError (path : string)
| ValueError (from to : mode)          (* [convert]: conversion not supported *)
| OSError (f : Format) (m : mode)      (* [save]: cannot write mode as format *)
| IntegrityError (path : string)       (* UNIQUE constraint failed: images.filepath *)
| OperationalError.                    (* database or disk is full *)

(** The message boxes, one constructor per [QMessageBox] call. *)
Inductive message :=
| NoImagesDropped
| CouldNotAddImage (filename : string) (e : exn)
| ImagesAdded (added_count : Z)
| NoImagesInDatabase
| CompressionError (filename : string) (e : exn)
| CompressionComplete (total : nat).

(** The state: the table, the files, and the messages shown so far.  The
    files of [disk] are regular files that the program may read, overwrite
    and remove; directories and permissions are not modelled, and
    [stored_images] is taken to be there, as [ensure_images_dir] leaves it. *)
Record world := World {
  db : table;
  disk : gmap string file;
  shown : list message
}.

(** The answers of the Pillow build in use: which conversions [convert]
    supports and which modes each encoder writes. *)
Record Pillow := {
  can_convert : mode → mode → bool;
  can_write : Format → mode → bool
}.

(** ** A state and exception monad

    A computation runs on a [world] and returns a value or raises; [None]
    stands for a loop that used up its iteration budget. *)

Inductive result (A : Type) :=
| Ok (a : A)
| Raise (e : exn).
Arguments Ok {A} a.
Arguments Raise {A} e.

Definition M (A : Type) : Type := world → option (result A * world).

Definition ret {A} (a : A) : M A := λ w, Some (Ok a, w).
Definition raise {A} (e : exn) : M A := λ w, Some (Raise e, w).

Definition bind {A B} (m : M A) (k : A → M B) : M B := λ w,
  match m w with
  | Some (Ok a, w') => k a w'
  | Some (Raise e, w') => Some (Raise e, w')
  | None => None
  end.

(** [try: m except Exception as e: h e]. *)
Definition try_except {A} (m : M A) (h : exn → M A) : M A := λ w,
  match m w with
  | Some (Raise e, w') => h e w'
  | other => other
  end.

Declare Scope py_scope.
Delimit Scope py_scope with py.
Notation "'let*' x ':=' m 'in' k" := (bind m (λ x, k))
  (at level 10, x name, m at level 100, k at level 200) : py_scope.
Notation "m '>>' k" := (bind m (λ _, k))
  (at level 100, k at level 200, right associativity) : py_scope.
Local Open Scope py_scope.

(** [for x in xs: body x]. *)
Fixpoint for_each {A} (xs : list A) (body : A → M unit) : M unit :=
  match xs with
  | [] => ret tt
  | x :: rest => body x >> for_each rest body
  end.

Definition show (msg : message) : M unit := λ w,
  Some (Ok tt, World (db w) (disk w) (shown w ++ [msg])).

Definition with_db (t : table) (w : world) : world := World t (disk w) (shown w).
Definition with_disk (d : gmap string file) (w : world) : world := World (db w) d (shown w).

(** ** [ImageDatabase] *)

(** [INSERT INTO images (filename, filepath) VALUES (?,?)]: with
    AUTOINCREMENT the statement fails ("database or disk is full") once the
    largest key has been given out, before any constraint is looked at; the
    UNIQUE column rejects a [filepath] that a row already has; otherwise the
    row gets the next key, which the statement reports as [lastrowid]. *)
Definition execute_insert (fname fpath : string) : M Z := λ w,
  let t := db w in
  let id := next_rowid t in
  if decide (max_rowid < id) then
    Some (Raise OperationalError, w)
  else if decide (path_held_by_other None fpath t) then
    Some (Raise (IntegrityError fpath), w)
  else
    Some (Ok id, with_db (Table (<[id := Entry fname fpath]> (rows t)) id) w).

(** [UPDATE images SET filepath=? WHERE id=?]: no row with that key, nothing
    happens; the UNIQUE column rejects a [filepath] another row has. *)
Definition execute_update (new_filepath : string) (image_id : Z) : M unit := λ w,
  let t := db w in
  match rows t !! image_id with
  | None => Some (Ok tt, w)
  | Some e =>
      if decide (path_held_by_other (Some image_id) new_filepath t) then
        Some (Raise (IntegrityError new_filepath), w)
      else
        Some (Ok tt,
              with_db (Table (<[image_id := Entry (filename e) new_filepath]> (rows t))
                             (sqlite_sequence t)) w)
  end.

(** [DELETE FROM images WHERE id=?]. *)
Definition execute_delete (image_id : Z) : M unit := λ w,
  let t := db w in
  Some (Ok tt, with_db (Table (delete image_id (rows t)) (sqlite_sequence t)) w).

Definition add_image (fname fpath : string) : M (option Z) :=
  try_except
    (let* lastrowid := execute_insert fname fpath in
     ret (Some lastrowid))
    (λ e, match e with
          | IntegrityError _ => ret None     (* file already exists in DB *)
          | _ => raise e
          end).

Definition get_all_images : M (list record) := λ w,
  Some (Ok (select_all_desc (db w)), w).

Definition update_image_path (image_id : Z) (new_filepath : string) : M unit :=
  execute_update new_filepath image_id.

Definition delete_image (image_id : Z) : M unit :=
  execute_delete image_id.

(** Truth value of what [add_image] returns: an integer other than 0. *)
Definition truthy (r : option Z) : bool :=
  match r with
  | Some n => negb (Z.eqb n 0)
  | None => false
  end.

(** ** Files *)

Definition IMAGES_DIR : string := "stored_images".

Definition path_exists (d : gmap string file) (p : string) : bool :=
  bool_decide (is_Some (d !! p)).

(** [shutil.copy2(src, dst)]. *)
Definition copy2 (src dst : string) : M unit := λ w,
  match disk w !! src with
  | Some f => Some (Ok tt, with_disk (<[dst := f]> (disk w)) w)
  | None => Some (Raise (FileNotFoundError src), w)
  end.

(** [os.remove(path)]. *)
Definition os_remove (path : string) : M unit := λ w,
  match disk w !! path with
  | Some _ => Some (Ok tt, with_disk (delete path (disk w)) w)
  | None => Some (Raise (FileNotFoundError path), w)
  end.

(** ** [DragDropWidget.dropEvent] *)

Record url := Url { isLocalFile : bool; toLocalFile : string }.

Definition supported_extensions : list string :=
  [".png"; ".jpg"; ".jpeg"; ".bmp"; ".gif"; ".tiff"; ".webp"].

Definition is_supported (fpath : string) : bool :=
  bool_decide (Py.lower (Py.splitext fpath).2 ∈ supported_extensions).

(** The first loop: the local files with a supported extension. *)
Fixpoint dropped_files (urls : list url) : list string :=
  match urls with
  | [] => []
  | u :: rest =>
      if isLocalFile u then
        let fpath := toLocalFile u in
        if is_supported fpath then fpath :: dropped_files rest
        else dropped_files rest
      else dropped_files rest
  end.

(** The name tried with suffix [i]. *)
Definition suffixed (base ext : string) (i : N) : string :=
  Py.join IMAGES_DIR (base +:+ "_" +:+ pretty i +:+ ext).

(** [while os.path.exists(target_path): target_path = ...; i += 1], with a
    budget of [fuel] iterations. *)
Fixpoint while_exists (fuel : nat) (d : gmap string file) (base ext : string)
    (i : N) (target_path : string) : option string :=
  if path_exists d target_path then
    match fuel with
    | O => None
    | S fuel' => while_exists fuel' d base ext (i + 1)%N (suffixed base ext i)
    end
  else Some target_path.

(** The name a dropped file gets in [IMAGES_DIR].  One iteration per existing
    file and one more is all the loop can use. *)
Definition choose_target (fname : string) : M string := λ w,
  let target_path := Py.join IMAGES_DIR fname in
  let '(base, ext) := Py.splitext fname in
  match while_exists (S (size (disk w))) (disk w) base ext 1%N target_path with
  | Some p => Some (Ok p, w)
  | None => None
  end.

(** The [try] block of the loop body. *)
Definition add_file_try (f target_path : string) (added_count : Z) : M Z :=
  copy2 f target_path >>
  let* id := add_image (Py.basename target_path) target_path in
  if truthy id then ret (added_count + 1) else ret added_count.

(** The body of [for f in files]. *)
Definition add_file (f : string) (added_count : Z) : M Z :=
  let fname := Py.basename f in
  let* target_path := choose_target fname in
  try_except (add_file_try f target_path added_count)
    (λ e, show (CouldNotAddImage fname e) >> ret added_count).

Fixpoint add_files (files : list string) (added_count : Z) : M Z :=
  match files with
  | [] => ret added_count
  | f :: rest =>
      let* added_count := add_file f added_count in
      add_files rest added_count
  end.

Definition dropEvent (urls : list url) : M unit :=
  let files := dropped_files urls in
  match files with
  | [] => show NoImagesDropped
  | _ =>
      let* added_count := add_files files 0 in
      show (ImagesAdded added_count)
  end.

(** ** [MainWindow.compress_all_images] *)

(** A file that was opened for writing and closed with nothing written:
    where there is a file at [path] it is empty afterwards. *)
Definition emptied (path : string) (w : world) : world :=
  match disk w !! path with
  | Some _ => with_disk (<[path := Blob ""]> (disk w)) w
  | None => w
  end.

(** The values the settings dialog returns. *)
Record options := Options { quality : Z; bit_depth : Z; format : Format }.

Section Compression.

Variable pil : Pillow.

(** [Image.open(path)]. *)
Definition Image_open (path : string) : M image := λ w,
  match disk w !! path with
  | Some (Picture im _) => Some (Ok im, w)
  | Some (Blob _) => Some (Raise (UnidentifiedImageError path), w)
  | None => Some (Raise (FileNotFoundError path), w)
  end.

(** [img.convert(to)]. *)
Definition convert (img : image) (to : mode) : M image :=
  if can_convert pil (im_mode img) to
  then ret (Image to (im_pixels img))
  else raise (ValueError (im_mode img) to).

(** [img.save(path, format=fmt, **kwargs)].  Pillow opens [path] for writing
    before it hands the picture to the encoder, and when the encoder raises
    it removes the file only if the call has created it: a refused picture
    leaves an empty file where there was a file, and nothing where there was
    none. *)
Definition save (img : image) (path : string) (fmt : Format)
    (kwargs : gmap string pyval) : M unit := λ w,
  if can_write pil fmt (im_mode img)
  then Some (Ok tt, with_disk (<[path := Picture img (Some (fmt, kwargs))]> (disk w)) w)
  else Some (Raise (OSError fmt (im_mode img)), emptied path w).

(** "Convert bit depth". *)
Definition convert_bit_depth (opts : options) (img : image) : M image :=
  if bool_decide (bit_depth opts = 1) then
    convert img M_1
  else if bool_decide (bit_depth opts = 8) then
    if bool_decide (im_mode img ≠ M_RGB) && bool_decide (im_mode img ≠ M_RGBA)
    then convert img M_L
    else convert img M_RGB
  else if bool_decide (bit_depth opts = 16) then
    if bool_decide (im_mode img ∈ [M_I16; M_I16B]) then ret img
    else convert img M_I16
  else ret img.

(** "Determine save params based on format". *)
Definition save_kwargs (opts : options) : gmap string pyval :=
  if bool_decide (format opts = JPEG) then
    <["optimize" := PyBool true]> (<["quality" := PyInt (quality opts)]> ∅)
  else if bool_decide (format opts = WEBP) then
    <["method" := PyInt 6]> (<["quality" := PyInt (quality opts)]> ∅)
  else ∅.

(** "Build new filename with extension". *)
Definition new_filename (opts : options) (fname : string) : string :=
  let ext := Py.lower (format_name (format opts)) in
  let base := (Py.splitext fname).1 in
  base +:+ "_compressed." +:+ ext.

Definition new_filepath (opts : options) (fname : string) : string :=
  Py.join IMAGES_DIR (new_filename opts fname).

(** The [try] block of the loop body. *)
Definition compress_body (opts : options) (r : record) : M unit :=
  let '(image_id, fname, fpath) := r in
  let* img := Image_open fpath in
  let* img := convert_bit_depth opts img in
  let kwargs := save_kwargs opts in
  let new_fpath := new_filepath opts fname in
  save img new_fpath (format opts) kwargs >>
  (* Update DB entry to new file and remove old file *)
  if bool_decide (fpath ≠ new_fpath) then
    try_except (os_remove fpath) (λ _, ret tt) >>
    update_image_path image_id new_fpath
  else ret tt.

(** The loop body: the [try] block and its [except Exception]. *)
Definition compress_image (opts : options) (r : record) : M unit :=
  try_except (compress_body opts r)
    (λ e, show (CompressionError r.1.2 e)).

Definition compress_all_images (opts : options) : M unit :=
  let* images := get_all_images in
  let total := length images in
  if Nat.eqb total 0 then show NoImagesInDatabase
  else
    for_each images (compress_image opts) >>
    show (CompressionComplete total).

End Compression.

(** *** Pillow as released

    [Image.convert] asks the C library for the conversion and, when that
    refuses, tries again through the base mode of the source.  The tables
    cover the four targets the program asks for: ["1"], ["L"], ["RGB"] and
    ["I;16"]. *)

(** [ImageMode.getmode(m).basemode]. *)
Definition basemode (m : mode) : mode :=
  match m with
  | M_1 | M_L | M_I | M_F | M_LA | M_La | M_I16 | M_I16L | M_I16B | M_I16N => M_L
  | M_P => M_P
  | M_RGB | M_RGBA | M_RGBX | M_RGBa | M_CMYK | M_YCbCr | M_LAB | M_HSV | M_PA => M_RGB
  end.

(** [im.convert(to, dither)] of the C library, with the default dither:
    a palette picture goes through [frompalette], a picture bound for ["1"]
    through [tobilevel], everything else through the table of converters. *)
Definition core_convert (from to : mode) : bool :=
  match to with
  | M_1 => bool_decide (from ∈ [M_L; M_RGB; M_P; M_PA])
  | M_L =>
      bool_decide (from ∈ [M_1; M_LA; M_I; M_F; M_RGB; M_RGBA; M_RGBX; M_YCbCr;
                           M_I16; M_I16L; M_I16B; M_I16N; M_P; M_PA])
  | M_RGB =>
      bool_decide (from ∈ [M_1; M_L; M_LA; M_I; M_RGBA; M_RGBa; M_RGBX; M_CMYK;
                           M_YCbCr; M_HSV; M_I16; M_P; M_PA])
  | M_I16 => bool_decide (from ∈ [M_L; M_I; M_RGB])
  | _ => false
  end.

(** [Image.convert]: a copy for the mode the picture has; else the C
    library, directly or through the base mode. *)
Definition pillow_convert (from to : mode) : bool :=
  bool_decide (from = to)
  || core_convert from to
  || (bool_decide (basemode from ≠ from)
      && core_convert from (basemode from) && core_convert (basemode from) to).

(** The modes each encoder takes: [RAWMODE] of the JPEG plugin, [_OUTMODES]
    of the PNG plugin, [SAVE] of the BMP plugin; the WEBP plugin converts
    what is not ["RGB"], ["RGBA"] or ["RGBX"] to ["RGB"] (to ["RGBA"] with
    an alpha channel) first. *)
Definition pillow_write (fmt : Format) (m : mode) : bool :=
  match fmt with
  | JPEG => bool_decide (m ∈ [M_1; M_L; M_RGB; M_RGBX; M_CMYK; M_YCbCr])
  | PNG => bool_decide (m ∈ [M_1; M_L; M_LA; M_I; M_I16; M_I16B; M_P; M_RGB; M_RGBA])
  | BMP => bool_decide (m ∈ [M_1; M_L; M_P; M_RGB; M_RGBA])
  | WEBP =>
      match m with
      | M_RGB | M_RGBA | M_RGBX | M_LA | M_PA | M_RGBa => true
      | M_La => false
      | _ => pillow_convert m M_RGB
      end
  end.

Definition stock_pillow : Pillow := {|
  can_convert := pillow_convert;
  can_write := pillow_write
|}.

(** ** Definitions the statements below use *)

Definition table_ok (t : table) : Prop :=
  unique_paths t ∧ 0 <= sqlite_sequence t.

Definition inserted (fname fpath : string) (t : table) : table :=
  Table (<[next_rowid t := Entry fname fpath]> (rows t)) (next_rowid t).

Definition repointed (image_id : Z) (e : entry) (new_filepath : string) (t : table) : table :=
  Table (<[image_id := Entry (filename e) new_filepath]> (rows t)) (sqlite_sequence t).

(** The table still has a key to give. *)
Definition has_room (t : table) : Prop := next_rowid t <= max_rowid.

(** What one dropped file leaves, given the target [p] chosen for it: a
    warning when the source is missing; the copy and a warning when the table
    has no key left; the copy alone when a row has the target path; the copy
    and its row otherwise. *)
Definition add_file_outcome (f : string) (added_count : Z) (p : string) (w : world)
    : Z * world :=
  match disk w !! f with
  | None =>
      (added_count,
       World (db w) (disk w)
             (shown w ++ [CouldNotAddImage (Py.basename f) (FileNotFoundError f)]))
  | Some content =>
      if decide (max_rowid < next_rowid (db w)) then
        (added_count,
         World (db w) (<[p := content]> (disk w))
               (shown w ++ [CouldNotAddImage (Py.basename f) OperationalError]))
      else if decide (path_held_by_other None p (db w)) then
        (added_count, with_disk (<[p := content]> (disk w)) w)
      else
        (if truthy (Some (next_rowid (db w))) then added_count + 1 else added_count,
         World (inserted (Py.basename p) p (db w)) (<[p := content]> (disk w)) (shown w))
  end.

(** Every message a drop can add while it loops is a warning about one
    file. *)
Definition is_add_warning (m : message) : Prop :=
  ∃ fname e, m = CouldNotAddImage fname e.

(** The mode "Convert bit depth" asks [convert] for; [None] where the picture
    is kept as it is. *)
Definition requested_mode (opts : options) (m : mode) : option mode :=
  if bool_decide (bit_depth opts = 1) then Some M_1
  else if bool_decide (bit_depth opts = 8) then
    if bool_decide (m ≠ M_RGB) && bool_decide (m ≠ M_RGBA) then Some M_L
    else Some M_RGB
  else if bool_decide (bit_depth opts = 16) then
    if bool_decide (m ∈ [M_I16; M_I16B]) then None else Some M_I16
  else None.

Definition converted (pil : Pillow) (opts : options) (img : image) : result image :=
  match requested_mode opts (im_mode img) with
  | Some to =>
      if can_convert pil (im_mode img) to then Ok (Image to (im_pixels img))
      else Raise (ValueError (im_mode img) to)
  | None => Ok img
  end.

Definition warn (fname : string) (e : exn) (w : world) : world :=
  World (db w) (disk w) (shown w ++ [CompressionError fname e]).

(** The file [save] leaves at the output path. *)
Definition written (opts : options) (img : image) : file :=
  Picture img (Some (format opts, save_kwargs opts)).

(** The world one pass of the loop body leaves, case by case. *)
Definition compress_outcome (pil : Pillow) (opts : options) (r : record) (w : world)
    : world :=
  let '(image_id, fname, fpath) := r in
  let new_fpath := new_filepath opts fname in
  match disk w !! fpath with
  | None => warn fname (FileNotFoundError fpath) w
  | Some (Blob _) => warn fname (UnidentifiedImageError fpath) w
  | Some (Picture im _) =>
      match converted pil opts im with
      | Raise e => warn fname e w
      | Ok img =>
          if can_write pil (format opts) (im_mode img) then
            if decide (fpath = new_fpath) then
              with_disk (<[new_fpath := written opts img]> (disk w)) w
            else
              let w1 :=
                with_disk (delete fpath (<[new_fpath := written opts img]> (disk w))) w in
              match rows (db w) !! image_id with
              | None => w1
              | Some e =>
                  if decide (path_held_by_other (Some image_id) new_fpath (db w))
                  then warn fname (IntegrityError new_fpath) w1
                  else with_db (repointed image_id e new_fpath (db w)) w1
              end
          else warn fname (OSError (format opts) (im_mode img)) (emptied new_fpath w)
      end
  end.

(** ** Batches, in the words of the specification

    A batch goes through its items one after the other, each in the state
    the items before it have left.  An item that goes through hands its
    result to the next.  An error of an item is captured: it is shown with
    the item, the result so far is kept, and the batch goes on with the
    rest. *)
Inductive batch {A S : Type} (process : A → S → M S) (report : A → exn → message)
    : list A → S → world → S → world → Prop :=
| batch_nil s w : batch process report [] s w s w
| batch_ok x xs s w s1 w1 s2 w2 :
    process x s w = Some (Ok s1, w1) →
    batch process report xs s1 w1 s2 w2 →
    batch process report (x :: xs) s w s2 w2
| batch_error x xs s w e w1 s2 w2 :
    process x s w = Some (Raise e, w1) →
    batch process report xs s
      (World (db w1) (disk w1) (shown w1 ++ [report x e])) s2 w2 →
    batch process report (x :: xs) s w s2 w2.

(** What is done for one dropped file, without the [except] clause: the
    choice of the target and the [try] block. *)
Definition ingest_item (f : string) (added_count : Z) : M Z :=
  let* target_path := choose_target (Py.basename f) in
  add_file_try f target_path added_count.

(** What is done for one record, without the [except] clause. *)
Definition compress_item (pil : Pillow) (opts : options) (r : record) (_ : unit)
    : M unit :=
  compress_body pil opts r.

(** ** Worlds to try the handlers on *)

Definition empty_table : table := Table ∅ 0.

Definition rgb_photo : file := Picture (Image M_RGB "photo") None.
Definition palette_photo : file := Picture (Image M_P "palette") None.
Definition rgba_photo : file := Picture (Image M_RGBA "overlay") None.

(** One stored picture, and two files called [photo.png] elsewhere. *)
Definition album : world :=
  World (inserted "photo.png" "stored_images/photo.png" empty_table)
        (<["stored_images/photo.png" := rgb_photo]>
          (<["/home/a/photo.png" := palette_photo]>
            (<["/home/b/photo.png" := rgba_photo]> ∅)))
        [].

(** Two stored pictures whose names differ in the extension only. *)
Definition pair : world :=
  World (inserted "photo.bmp" "stored_images/photo.bmp"
           (inserted "photo.png" "stored_images/photo.png" empty_table))
        (<["stored_images/photo.png" := rgb_photo]>
          (<["stored_images/photo.bmp" := palette_photo]> ∅))
        [].

(** A row whose file was removed behind the program's back, and a file named
    like it elsewhere. *)
Definition stale : world :=
  World (inserted "photo.png" "stored_images/photo.png" empty_table)
        (<["/home/a/photo.png" := palette_photo]> ∅)
        [].

(** ** Sessions: the program's operations, one after the other *)

(** The world a call leaves, whether it returned or raised. *)
Definition state_after {A} (m : M A) (w : world) : world :=
  match m w with
  | Some (_, w') => w'
  | None => w
  end.

(** What can happen to the table and the files: the two handlers, and the
    methods of [ImageDatabase]. *)
Inductive action :=
| Drop (urls : list url)
| Compress (pil : Pillow) (opts : options)
| AddImage (fname fpath : string)
| UpdateImagePath (image_id : Z) (new_filepath : string)
| DeleteImage (image_id : Z).

Definition perform (w : world) (a : action) : world :=
  match a with
  | Drop urls => state_after (dropEvent urls) w
  | Compress pil opts => state_after (compress_all_images pil opts) w
  | AddImage fname fpath => state_after (add_image fname fpath) w
  | UpdateImagePath image_id new_filepath =>
      state_after (update_image_path image_id new_filepath) w
  | DeleteImage image_id => state_after (delete_image image_id) w
  end.

Definition session (w : world) (acts : list action) : world :=
  foldl perform w acts.

(** [ORDER BY id DESC] on the rows [fetchall] returns: every id is larger
    than the ids after it. *)
Definition newest_first (l : list record) : Prop :=
  StronglySorted (λ a b : record, a.1.1 > b.1.1) l.

(** Every row names a file that is there. *)
Definition rows_have_files (w : world) : Prop :=
  ∀ i e, rows (db w) !! i = Some e → is_Some (disk w !! filepath e).

(** ** [DragDropWidget.dragEnterEvent] *)

(** What the handler reads of [event.mimeData()]. *)
Record mimeData := MimeData { hasUrls : bool; urls : list url }.

(** The loop over the urls: [true] at the first local file with a supported
    extension ([acceptProposedAction] and [return]). *)
Fixpoint accepts_some (us : list url) : bool :=
  match us with
  | [] => false
  | u :: rest =>
      if isLocalFile u then
        let ext := Py.lower (Py.splitext (toLocalFile u)).2 in
        if bool_decide (ext ∈ supported_extensions) then true
        else accepts_some rest
      else accepts_some rest
  end.

(** [true] for [event.acceptProposedAction()], [false] for [event.ignore()]. *)
Definition dragEnterEvent (md : mimeData) : bool :=
  if hasUrls md then
    if accepts_some (urls md) then true else false
  else false.

(** ** [ImageTableModel] *)

(** [l[i]] on a Python list: a negative index counts from the end; [None]
    stands for [IndexError]. *)
Definition list_getitem {A} (l : list A) (i : Z) : option A :=
  if Z.leb 0 i then l !! Z.to_nat i
  else if Z.leb 0 (Z.of_nat (length l) + i) then l !! Z.to_nat (Z.of_nat (length l) + i)
  else None.

(** A [QModelIndex]: valid when it belongs to a model and neither its row nor
    its column is negative. *)
Record QModelIndex := ModelIndex { row : Z; column : Z; has_model : bool }.

Definition isValid (index : QModelIndex) : bool :=
  Z.leb 0 (row index) && Z.leb 0 (column index) && has_model index.

Inductive ItemDataRole := DisplayRole | OtherRole (n : Z).
Inductive Orientation := Horizontal | Vertical.

(** A [QVariant]: invalid ([QVariant()]), or the Python value wrapped. *)
Inductive QVariant := Invalid | IntValue (n : Z) | StringValue (s : string).

(** [refresh]: the list the model shows is what [get_all_images] returns. *)
Definition refresh : M (list record) := get_all_images.

Definition rowCount (images : list record) : Z := Z.of_nat (length images).

Definition columnCount : Z := 3.

(** [data(index, role)]; [None] stands for [IndexError]. *)
Definition data (images : list record) (index : QModelIndex) (role : ItemDataRole)
    : option QVariant :=
  if negb (isValid index) then Some Invalid
  else
    match list_getitem images (row index) with
    | None => None
    | Some image =>
        let col := column index in
        match role with
        | DisplayRole =>
            if Z.eqb col 0 then Some (IntValue image.1.1)
            else if Z.eqb col 1 then Some (StringValue image.1.2)
            else if Z.eqb col 2 then Some (StringValue image.2)
            else Some Invalid
        | OtherRole _ => Some Invalid
        end
    end.

(** [headerData(section, orientation, role)], given what the base class
    answers; [None] stands for [IndexError]. *)
Definition headerData (section : Z) (orientation : Orientation) (role : ItemDataRole)
    (inherited : QVariant) : option QVariant :=
  let headers := ["ID"; "Filename"; "File path"] in
  match role, orientation with
  | DisplayRole, Horizontal => StringValue <$> list_getitem headers section
  | _, _ => Some inherited
  end.

(** [dropEvent] with the model it refreshes: the list shown before, and the
    list shown when the handler returns. *)
Definition dropEvent_view (us : list url) (images : list record) : M (list record) :=
  let files := dropped_files us in
  match files with
  | [] => show NoImagesDropped >> ret images
  | _ =>
      let* added_count := add_files files 0 in
      let* images := refresh in
      show (ImagesAdded added_count) >> ret images
  end.

(** [compress_all_images] with the model it refreshes. *)
Definition compress_all_images_view (pil : Pillow) (opts : options)
    (images : list record) : M (list record) :=
  let* snapshot := get_all_images in
  let total := length snapshot in
  if Nat.eqb total 0 then show NoImagesInDatabase >> ret images
  else
    for_each snapshot (compress_image pil opts) >>
    let* images := refresh in
    show (CompressionComplete total) >> ret images.

(** The row [e] names a file that holds a picture written by [save] with
    the options [opts], at the output path of its file name. *)
Definition row_is_compressed (opts : options) (w : world) (e : entry) : Prop :=
  filepath e = new_filepath opts (filename e)
  ∧ ∃ img, disk w !! filepath e
           = Some (Picture img (Some (format opts, save_kwargs opts))).

(** The warnings of a batch, item by item: [None] for an item that was
    passed in silence, [Some e] for one whose exception [e] was shown. *)
Definition warnings_of {A} (warning : A → exn → message)
    (items : list A) (errors : list (option exn)) : list message :=
  omap (λ p : A * option exn, warning p.1 <$> p.2) (zip items errors).

(** A row that stands for the dropped file [f]: its file name has no
    directory part, its path is that name inside [IMAGES_DIR], and the name
    has the extension of [f]. *)
Definition stored_as (f : string) (e : entry) : Prop :=
  Py.rfind "/" (filename e) = -1
  ∧ filepath e = IMAGES_DIR +:+ "/" +:+ filename e
  ∧ (Py.splitext (filename e)).2 = (Py.splitext f).2.

(** * Properties *)

(** ** The table *)

Lemma foldr_max_ge (a : Z) (l : list Z) : a <= foldr Z.max a l.
Proof. induction l as [|x l IH]; simpl; lia. Qed.

Lemma foldr_max_elem (a x : Z) (l : list Z) : x ∈ l → x <= foldr Z.max a l.
Proof.
  induction 1 as [y l|y z l _ IH]; simpl; [lia|].
  etrans; [exact IH|]. lia.
Qed.

Lemma next_rowid_above_keys (t : table) (i : Z) (e : entry) :
  rows t !! i = Some e → i < next_rowid t.
Proof.
  intros Hi. unfold next_rowid.
  assert (i ∈ (map_to_list (rows t)).*1) as Hin.
  { apply list_elem_of_fmap. exists (i, e). split; [done|].
    by apply elem_of_map_to_list. }
  apply (foldr_max_elem (sqlite_sequence t)) in Hin. lia.
Qed.

Lemma next_rowid_fresh (t : table) : rows t !! next_rowid t = None.
Proof.
  destruct (rows t !! next_rowid t) as [e|] eqn:He; [|done].
  apply next_rowid_above_keys in He. lia.
Qed.

Lemma next_rowid_above_sequence (t : table) : sqlite_sequence t < next_rowid t.
Proof.
  unfold next_rowid.
  pose proof (foldr_max_ge (sqlite_sequence t) (map_to_list (rows t)).*1). lia.
Qed.

Lemma unique_paths_insert (t : table) (i : Z) (fname fpath : string) (s : Z) :
  unique_paths t →
  ¬ path_held_by_other (Some i) fpath t →
  unique_paths (Table (<[i := Entry fname fpath]> (rows t)) s).
Proof.
  intros Hu Hfree j k a b Hj Hk Hab. simpl in *.
  apply lookup_insert_Some in Hj as [[<- <-]|[Hji Hj]];
    apply lookup_insert_Some in Hk as [[<- <-]|[Hki Hk]]; simpl in *.
  - done.
  - destruct Hfree. exists k, b. split; [done|]. split; [congruence|done].
  - destruct Hfree. exists j, a. split; [done|]. split; [congruence|done].
  - by eapply Hu.
Qed.

Lemma unique_paths_delete (t : table) (i s : Z) :
  unique_paths t → unique_paths (Table (delete i (rows t)) s).
Proof.
  intros Hu j k a b Hj Hk Hab. simpl in *.
  apply lookup_delete_Some in Hj as [_ Hj].
  apply lookup_delete_Some in Hk as [_ Hk].
  by eapply Hu.
Qed.

(** ** [ImageDatabase] *)

Lemma execute_insert_full (fname fpath : string) (w : world) :
  ¬ has_room (db w) →
  execute_insert fname fpath w = Some (Raise OperationalError, w).
Proof.
  intros H. unfold execute_insert, has_room in *. rewrite decide_True; [done|lia].
Qed.

Lemma execute_insert_taken (fname fpath : string) (w : world) :
  has_room (db w) →
  path_held_by_other None fpath (db w) →
  execute_insert fname fpath w = Some (Raise (IntegrityError fpath), w).
Proof.
  intros Hroom H. unfold execute_insert, has_room in *.
  rewrite decide_False by lia. by rewrite decide_True.
Qed.

Lemma execute_insert_free (fname fpath : string) (w : world) :
  has_room (db w) →
  ¬ path_held_by_other None fpath (db w) →
  execute_insert fname fpath w
  = Some (Ok (next_rowid (db w)), with_db (inserted fname fpath (db w)) w).
Proof.
  intros Hroom H. unfold execute_insert, has_room in *.
  rewrite decide_False by lia. by rewrite decide_False.
Qed.

Lemma add_image_full (fname fpath : string) (w : world) :
  ¬ has_room (db w) →
  add_image fname fpath w = Some (Raise OperationalError, w).
Proof.
  intros H. unfold add_image, try_except, bind.
  by rewrite execute_insert_full.
Qed.

Lemma add_image_taken (fname fpath : string) (w : world) :
  has_room (db w) →
  path_held_by_other None fpath (db w) →
  add_image fname fpath w = Some (Ok None, w).
Proof.
  intros Hroom H. unfold add_image, try_except, bind.
  by rewrite execute_insert_taken.
Qed.

Lemma add_image_free (fname fpath : string) (w : world) :
  has_room (db w) →
  ¬ path_held_by_other None fpath (db w) →
  add_image fname fpath w
  = Some (Ok (Some (next_rowid (db w))), with_db (inserted fname fpath (db w)) w).
Proof.
  intros Hroom H. unfold add_image, try_except, bind.
  by rewrite execute_insert_free.
Qed.

(** What [add_image] does to the table, whatever it returns. *)
Lemma add_image_db (fname fpath : string) (w : world) :
  ∃ r w', add_image fname fpath w = Some (r, w')
    ∧ disk w' = disk w ∧ shown w' = shown w
    ∧ (db w' = db w
       ∨ (has_room (db w) ∧ ¬ path_held_by_other None fpath (db w)
          ∧ r = Ok (Some (next_rowid (db w)))
          ∧ db w' = inserted fname fpath (db w))).
Proof.
  destruct (decide (has_room (db w))) as [Hroom|Hfull].
  - destruct (decide (path_held_by_other None fpath (db w))).
    + eexists _, _. split; [by apply add_image_taken|]. by repeat split; [..|left].
    + eexists _, _. split; [by apply add_image_free|].
      split; [done|]. split; [done|]. by right.
  - eexists _, _. split; [by apply add_image_full|]. by repeat split; [..|left].
Qed.

Lemma foldr_max_le (a b : Z) (l : list Z) :
  a <= b → Forall (λ x, x <= b) l → foldr Z.max a l <= b.
Proof. intros Ha. induction 1 as [|x l Hx _ IH]; simpl; lia. Qed.

(** After an insert the next key is the one after the key just given. *)
Lemma next_rowid_inserted (fname fpath : string) (t : table) :
  next_rowid (inserted fname fpath t) = next_rowid t + 1.
Proof.
  pose proof (next_rowid_above_sequence (inserted fname fpath t)) as Hlow.
  cbn [inserted sqlite_sequence] in Hlow.
  assert (next_rowid (inserted fname fpath t) <= next_rowid t + 1); [|lia].
  unfold next_rowid at 1. cbn [inserted sqlite_sequence rows].
  assert (foldr Z.max (next_rowid t)
            (map_to_list (<[next_rowid t := Entry fname fpath]> (rows t))).*1
          <= next_rowid t); [|lia].
  apply foldr_max_le; [lia|]. apply Forall_forall. intros i Hi.
  apply list_elem_of_fmap in Hi as ([j e] & -> & Hj).
  apply elem_of_map_to_list in Hj. cbn [fst].
  apply lookup_insert_Some in Hj as [[<- _]|[_ Hj]]; [lia|].
  apply next_rowid_above_keys in Hj. lia.
Qed.

Lemma inserted_ok (fname fpath : string) (t : table) :
  table_ok t → ¬ path_held_by_other None fpath t →
  table_ok (inserted fname fpath t).
Proof.
  intros [Hu Hs] Hfree. split.
  - apply unique_paths_insert; [done|].
    intros (j & e & Hj & _ & Hp). apply Hfree. exists j, e. done.
  - simpl. pose proof (next_rowid_above_sequence t). lia.
Qed.

Lemma inserted_size (fname fpath : string) (t : table) :
  size (rows (inserted fname fpath t)) = S (size (rows t)).
Proof. simpl. apply map_size_insert_None, next_rowid_fresh. Qed.

Lemma inserted_subseteq (fname fpath : string) (t : table) :
  rows t ⊆ rows (inserted fname fpath t).
Proof. simpl. apply insert_subseteq, next_rowid_fresh. Qed.

Lemma execute_update_unknown (new_filepath : string) (image_id : Z) (w : world) :
  rows (db w) !! image_id = None →
  execute_update new_filepath image_id w = Some (Ok tt, w).
Proof. intros H. unfold execute_update. by rewrite H. Qed.

Lemma execute_update_taken (new_filepath : string) (image_id : Z) (e : entry) (w : world) :
  rows (db w) !! image_id = Some e →
  path_held_by_other (Some image_id) new_filepath (db w) →
  execute_update new_filepath image_id w = Some (Raise (IntegrityError new_filepath), w).
Proof. intros H1 H2. unfold execute_update. rewrite H1. by rewrite decide_True. Qed.

Lemma execute_update_free (new_filepath : string) (image_id : Z) (e : entry) (w : world) :
  rows (db w) !! image_id = Some e →
  ¬ path_held_by_other (Some image_id) new_filepath (db w) →
  execute_update new_filepath image_id w
  = Some (Ok tt, with_db (repointed image_id e new_filepath (db w)) w).
Proof. intros H1 H2. unfold execute_update. rewrite H1. by rewrite decide_False. Qed.

(** ** Strings *)

Lemma string_length_app (s t : string) :
  String.length (s +:+ t) = (String.length s + String.length t)%nat.
Proof. induction s as [|c s IH]; simpl; [done|]. by rewrite IH. Qed.

Lemma string_app_assoc (s t u : string) : s +:+ (t +:+ u) = (s +:+ t) +:+ u.
Proof.
  induction s as [|c s IH]; [done|].
  change (String c (s +:+ (t +:+ u)) = String c ((s +:+ t) +:+ u)).
  by rewrite IH.
Qed.

Lemma string_app_inj_r (t s1 s2 : string) : s1 +:+ t = s2 +:+ t → s1 = s2.
Proof.
  intros H.
  assert (String.length s1 = String.length s2) as Hlen.
  { apply (f_equal String.length) in H. rewrite !string_length_app in H. lia. }
  revert s2 H Hlen. induction s1 as [|c s1 IH]; intros [|d s2] H Hlen;
    simpl in *; try done.
  injection H as -> H. f_equal. apply IH; [done|lia].
Qed.

Lemma startswith_app (c : ascii) (s t : string) :
  s ≠ EmptyString → Py.startswith c (s +:+ t) = Py.startswith c s.
Proof. by destruct s. Qed.

Lemma startswith_base (c : ascii) (fname rest : string) :
  Py.startswith c fname = false →
  Py.startswith c rest = false →
  Py.startswith c ((Py.splitext fname).1 +:+ rest) = false.
Proof.
  intros Hf Hr. unfold Py.splitext.
  assert (∀ n, Py.startswith c (Py.take n fname +:+ rest) = false) as Htake.
  { intros [|n]; [done|]. by destruct fname. }
  assert (Py.startswith c (fname +:+ rest) = false) as Hwhole.
  { by destruct fname. }
  destruct (Z.ltb _ _); [|exact Hwhole].
  destruct (Py.has_non_dot _ _ _); [apply Htake|exact Hwhole].
Qed.

Lemma join_inj_suffix (a pre : string) (x y : string) :
  pre ≠ EmptyString →
  Py.join a (pre +:+ x) = Py.join a (pre +:+ y) → x = y.
Proof.
  intros Hpre. unfold Py.join. rewrite !startswith_app by done.
  destruct (Py.startswith "/" pre).
  - by intros ?%(inj (String.app pre)).
  - destruct (_ || _); intros H.
    + by apply (inj (String.app a)), (inj (String.app pre)) in H.
    + by apply (inj (String.app a)), (inj (String.app "/")), (inj (String.app pre)) in H.
Qed.

Global Instance suffixed_inj (base ext : string) : Inj (=) (=) (suffixed base ext).
Proof.
  intros i j H. unfold suffixed in H.
  rewrite !(string_app_assoc base "_") in H. apply join_inj_suffix in H.
  - by apply string_app_inj_r, (inj pretty) in H.
  - by destruct base.
Qed.

(** ** The search for a free name *)

(** A loop that runs out of budget has found every name it tried. *)
Lemma while_exists_None (fuel : nat) (d : gmap string file) (base ext : string)
    (i : N) (target_path : string) :
  while_exists fuel d base ext i target_path = None →
  ∀ j : nat, (j < fuel)%nat →
    path_exists d (suffixed base ext (i + N.of_nat j)) = true.
Proof.
  revert i target_path. induction fuel as [|fuel IH]; intros i t H j Hj; [lia|].
  simpl in H. destruct (path_exists d t); [|done].
  destruct fuel as [|fuel'].
  - assert (j = 0)%nat as -> by lia. simpl in H.
    destruct (path_exists d (suffixed base ext i)) eqn:E; [|done].
    by rewrite N.add_0_r.
  - destruct j as [|j].
    + rewrite N.add_0_r. simpl in H.
      by destruct (path_exists d (suffixed base ext i)).
    + specialize (IH _ _ H j ltac:(lia)).
      by replace (i + N.of_nat (S j))%N with (i + 1 + N.of_nat j)%N by lia.
Qed.

(** More distinct names than files cannot all exist. *)
Lemma names_exceed_files (d : gmap string file) (base ext : string) (i : N) (n : nat) :
  (∀ j : nat, (j < n)%nat → path_exists d (suffixed base ext (i + N.of_nat j)) = true) →
  (n ≤ size d)%nat.
Proof.
  intros Hall.
  set (names := (λ j : nat, suffixed base ext (i + N.of_nat j)) <$> seq 0 n).
  assert (NoDup names) as Hnd.
  { apply NoDup_fmap_2_strong; [|apply NoDup_seq].
    intros x y _ _ H. apply (inj (suffixed base ext)) in H. lia. }
  assert (names ⊆+ (map_to_list d).*1) as Hsub.
  { apply NoDup_submseteq; [done|]. intros p Hp.
    apply list_elem_of_fmap in Hp as (j & -> & Hj).
    apply elem_of_seq in Hj. specialize (Hall j ltac:(lia)).
    apply bool_decide_eq_true in Hall as [f Hf].
    apply list_elem_of_fmap. exists (suffixed base ext (i + N.of_nat j), f).
    split; [done|]. by apply elem_of_map_to_list. }
  apply submseteq_length in Hsub. unfold names in Hsub.
  rewrite !length_fmap, length_seq, length_map_to_list in Hsub. done.
Qed.

(** With one iteration per existing file and one more, the loop ends. *)
Lemma while_exists_terminates (d : gmap string file) (base ext : string)
    (i : N) (target_path : string) :
  is_Some (while_exists (S (size d)) d base ext i target_path).
Proof.
  destruct (while_exists _ _ _ _ _ _) as [p|] eqn:E; [by eexists|].
  pose proof (while_exists_None _ _ _ _ _ _ E) as Hall.
  apply names_exceed_files in Hall. lia.
Qed.

(** What the loop returns: the first name if it is free, else the name with
    the least suffix from [i] on that is free. *)
Lemma while_exists_Some (fuel : nat) (d : gmap string file) (base ext : string)
    (i : N) (target_path p : string) :
  while_exists fuel d base ext i target_path = Some p →
  path_exists d p = false ∧
  if path_exists d target_path then
    ∃ k : N, (i ≤ k)%N ∧ p = suffixed base ext k
      ∧ ∀ j : N, (i ≤ j < k)%N → path_exists d (suffixed base ext j) = true
  else p = target_path.
Proof.
  revert i target_path. induction fuel as [|fuel IH]; intros i t H; simpl in H.
  - destruct (path_exists d t) eqn:E; [done|]. by injection H as <-.
  - destruct (path_exists d t) eqn:E; [|by injection H as <-].
    apply IH in H as [Hfree H]. split; [done|].
    destruct (path_exists d (suffixed base ext i)) eqn:E'.
    + destruct H as (k & Hk & -> & Hbelow). exists k.
      split; [lia|]. split; [done|]. intros j Hj.
      destruct (decide (j = i)) as [->|]; [done|]. apply Hbelow. lia.
    + subst p. exists i. split; [lia|]. split; [done|]. intros j Hj. lia.
Qed.

(** More budget does not change the answer. *)
Lemma while_exists_more_fuel (fuel fuel' : nat) (d : gmap string file)
    (base ext : string) (i : N) (target_path p : string) :
  (fuel ≤ fuel')%nat →
  while_exists fuel d base ext i target_path = Some p →
  while_exists fuel' d base ext i target_path = Some p.
Proof.
  revert fuel' i target_path.
  induction fuel as [|fuel IH]; intros fuel' i t Hle H; simpl in H.
  - destruct fuel'; simpl; by destruct (path_exists d t).
  - destruct fuel' as [|fuel']; [lia|]. simpl.
    destruct (path_exists d t); [|done]. apply IH; [lia|done].
Qed.

(** ** The drop handler *)

Lemma choose_target_spec (fname : string) (w : world) :
  ∃ p, choose_target fname w = Some (Ok p, w)
    ∧ (∀ fuel, (size (disk w) < fuel)%nat →
         while_exists fuel (disk w) (Py.splitext fname).1 (Py.splitext fname).2 1
           (Py.join IMAGES_DIR fname) = Some p)
    ∧ disk w !! p = None
    ∧ if path_exists (disk w) (Py.join IMAGES_DIR fname) then
        ∃ k : N, (1 ≤ k)%N
          ∧ p = suffixed (Py.splitext fname).1 (Py.splitext fname).2 k
          ∧ ∀ j : N, (1 ≤ j < k)%N →
              path_exists (disk w)
                (suffixed (Py.splitext fname).1 (Py.splitext fname).2 j) = true
      else p = Py.join IMAGES_DIR fname.
Proof.
  unfold choose_target. destruct (Py.splitext fname) as [base ext]. cbn [fst snd].
  destruct (while_exists_terminates (disk w) base ext 1 (Py.join IMAGES_DIR fname))
    as [p Hp].
  rewrite Hp. exists p. split; [done|]. split.
  { intros fuel Hfuel. eapply while_exists_more_fuel; [|exact Hp]. lia. }
  apply while_exists_Some in Hp as [Hfree Hp]. split; [|done].
  apply bool_decide_eq_false in Hfree.
  destruct (disk w !! p) eqn:E; [|done]. destruct Hfree. by eexists.
Qed.

Lemma add_file_cases (f : string) (added_count : Z) (w : world) :
  ∃ p, choose_target (Py.basename f) w = Some (Ok p, w)
    ∧ disk w !! p = None
    ∧ add_file f added_count w
      = Some (Ok (add_file_outcome f added_count p w).1,
              (add_file_outcome f added_count p w).2).
Proof.
  destruct (choose_target_spec (Py.basename f) w) as (p & Hp & _ & Hfree & _).
  exists p. split; [done|]. split; [done|].
  unfold add_file, add_file_outcome, bind at 1. rewrite Hp.
  unfold try_except, add_file_try, bind, copy2.
  destruct (disk w !! f) as [content|] eqn:Hf; [|done].
  destruct (decide (max_rowid < next_rowid (db w))) as [Hfull|Hroom].
  { rewrite add_image_full; [done|]. unfold has_room. cbn [db with_disk]. lia. }
  assert (has_room (db (with_disk (<[p:=content]> (disk w)) w))) as Hroom'.
  { unfold has_room. cbn [db with_disk]. lia. }
  destruct (decide (path_held_by_other None p (db w))) as [Hheld|Hheld].
  - by rewrite add_image_taken.
  - rewrite add_image_free by done.
    unfold with_disk, with_db. cbn [db disk shown].
    by destruct (truthy (Some (next_rowid (db w)))).
Qed.

Lemma truthy_next_rowid (t : table) :
  table_ok t → truthy (Some (next_rowid t)) = true.
Proof.
  intros [_ Hs]. pose proof (next_rowid_above_sequence t). simpl.
  apply negb_true_iff, Z.eqb_neq. lia.
Qed.

(** One dropped file: the count goes up by the number of rows created, the
    table keeps its invariant and its rows, the files that were there stay. *)
Lemma add_file_spec (f : string) (added_count : Z) (w : world) :
  table_ok (db w) →
  ∃ added_count' w', add_file f added_count w = Some (Ok added_count', w')
    ∧ table_ok (db w')
    ∧ rows (db w) ⊆ rows (db w')
    ∧ Z.of_nat (size (rows (db w')))
      = Z.of_nat (size (rows (db w))) + (added_count' - added_count)
    ∧ (∀ q, is_Some (disk w !! q) → disk w' !! q = disk w !! q)
    ∧ ∃ msgs, shown w' = shown w ++ msgs ∧ Forall is_add_warning msgs.
Proof.
  intros Hok. destruct (add_file_cases f added_count w) as (p & _ & Hfree & ->).
  eexists _, _. split; [done|]. unfold add_file_outcome.
  destruct (disk w !! f) as [content|] eqn:Hf.
  - destruct (decide (max_rowid < next_rowid (db w))) as [Hfull|Hroom].
    { simpl. split; [done|]. split; [done|]. split; [lia|]. split.
      * intros q [c Hq]. apply lookup_insert_ne. congruence.
      * eexists. split; [done|]. constructor; [|done]. by eexists _, _. }
    destruct (decide (path_held_by_other None p (db w))) as [Hheld|Hheld].
    + simpl. split; [done|]. split; [done|]. split; [lia|]. split.
      * intros q [c Hq]. apply lookup_insert_ne. congruence.
      * exists []. by rewrite app_nil_r.
    + rewrite truthy_next_rowid by done. cbn [fst snd db disk shown].
      split; [by apply inserted_ok|]. split; [apply inserted_subseteq|].
      split; [rewrite inserted_size; lia|].
      split.
      * intros q [c Hq]. apply lookup_insert_ne. congruence.
      * exists []. by rewrite app_nil_r.
  - simpl. split; [done|]. split; [done|]. split; [lia|]. split; [done|].
    eexists. split; [done|]. constructor; [|done]. by eexists _, _.
Qed.

Lemma add_files_spec (files : list string) (added_count : Z) (w : world) :
  table_ok (db w) →
  ∃ added_count' w', add_files files added_count w = Some (Ok added_count', w')
    ∧ table_ok (db w')
    ∧ rows (db w) ⊆ rows (db w')
    ∧ Z.of_nat (size (rows (db w')))
      = Z.of_nat (size (rows (db w))) + (added_count' - added_count)
    ∧ (∀ q, is_Some (disk w !! q) → disk w' !! q = disk w !! q)
    ∧ ∃ msgs, shown w' = shown w ++ msgs ∧ Forall is_add_warning msgs.
Proof.
  revert added_count w. induction files as [|f rest IH]; intros c w Hok; simpl.
  - exists c, w. split; [done|]. split; [done|]. split; [done|].
    split; [lia|]. split; [done|]. exists []. by rewrite app_nil_r.
  - destruct (add_file_spec f c w Hok)
      as (c1 & w1 & E1 & Hok1 & Hsub1 & Hsize1 & Hdisk1 & msgs1 & Hm1 & Hw1).
    destruct (IH c1 w1 Hok1)
      as (c2 & w2 & E2 & Hok2 & Hsub2 & Hsize2 & Hdisk2 & msgs2 & Hm2 & Hw2).
    exists c2, w2. unfold bind. rewrite E1. split; [done|]. split; [done|].
    split; [by etrans|]. split; [lia|]. split.
    + intros q Hq. rewrite Hdisk2; [by apply Hdisk1|]. by rewrite Hdisk1.
    + exists (msgs1 ++ msgs2). rewrite Hm2, Hm1, <-app_assoc.
      split; [done|]. by apply Forall_app.
Qed.

(** ** The compression loop *)

Lemma convert_bit_depth_run (pil : Pillow) (opts : options) (img : image) (w : world) :
  convert_bit_depth pil opts img w = Some (converted pil opts img, w).
Proof.
  unfold convert_bit_depth, converted, requested_mode, convert.
  repeat case_bool_decide; simpl;
    repeat match goal with |- context [can_convert ?p ?a ?b] =>
      destruct (can_convert p a b) end; done.
Qed.

Lemma compress_image_run (pil : Pillow) (opts : options) (r : record) (w : world) :
  compress_image pil opts r w = Some (Ok tt, compress_outcome pil opts r w).
Proof.
  destruct r as [[image_id fname] fpath].
  unfold compress_image, compress_body, compress_outcome, try_except.
  unfold bind at 1. unfold Image_open.
  destruct (disk w !! fpath) as [[im wr|bytes]|] eqn:Hf; [|done..].
  unfold bind at 1. rewrite convert_bit_depth_run.
  destruct (converted pil opts im) as [img|e]; [|done].
  unfold bind at 1. unfold save.
  destruct (can_write pil (format opts) (im_mode img)); [|done].
  case_bool_decide as Hne.
  - rewrite decide_False by done.
    unfold bind, try_except, os_remove, update_image_path. cbn [disk with_disk].
    rewrite lookup_insert_ne by done. rewrite Hf.
    unfold execute_update. cbn [db with_disk].
    destruct (rows (db w) !! image_id) as [e|]; [|done].
    by destruct (decide (path_held_by_other (Some image_id) _ (db w))).
  - by rewrite decide_True.
Qed.

(** No pass of the loop raises, whatever the record and the files. *)
Lemma for_each_compress_run (pil : Pillow) (opts : options) (rs : list record) (w : world) :
  for_each rs (compress_image pil opts) w
  = Some (Ok tt, foldl (λ w r, compress_outcome pil opts r w) w rs).
Proof.
  revert w. induction rs as [|r rs IH]; intros w; simpl; [done|].
  unfold bind. by rewrite compress_image_run, IH.
Qed.

Lemma compress_all_images_run (pil : Pillow) (opts : options) (w : world) :
  compress_all_images pil opts w
  = Some (Ok tt,
      let images := select_all_desc (db w) in
      match images with
      | [] => World (db w) (disk w) (shown w ++ [NoImagesInDatabase])
      | _ =>
          let w' := foldl (λ w r, compress_outcome pil opts r w) w images in
          World (db w') (disk w') (shown w' ++ [CompressionComplete (length images)])
      end).
Proof.
  unfold compress_all_images, bind at 1, get_all_images.
  destruct (select_all_desc (db w)) as [|r rs] eqn:E; [done|].
  cbn [length Nat.eqb]. unfold bind. by rewrite for_each_compress_run.
Qed.

Lemma select_all_desc_length (t : table) :
  length (select_all_desc t) = size (rows t).
Proof.
  unfold select_all_desc.
  by rewrite length_fmap, merge_sort_Permutation, length_map_to_list.
Qed.

Lemma emptied_db (path : string) (w : world) : db (emptied path w) = db w.
Proof. unfold emptied. by destruct (disk w !! path). Qed.

Lemma emptied_shown (path : string) (w : world) : shown (emptied path w) = shown w.
Proof. unfold emptied. by destruct (disk w !! path). Qed.

Lemma emptied_disk (path q : string) (w : world) :
  disk (emptied path w) !! q
  = if decide (q = path) then (λ _, Blob "") <$> disk w !! path else disk w !! q.
Proof.
  unfold emptied. destruct (decide (q = path)) as [->|Hne].
  - destruct (disk w !! path) eqn:E; cbn [disk with_disk]; [|by rewrite E].
    by rewrite lookup_insert_eq.
  - destruct (disk w !! path); cbn [disk with_disk]; [|done].
    by rewrite lookup_insert_ne.
Qed.

Lemma compress_outcome_unique (pil : Pillow) (opts : options) (r : record) (w : world) :
  unique_paths (db w) → unique_paths (db (compress_outcome pil opts r w)).
Proof.
  intros Hu. destruct r as [[image_id fname] fpath]. unfold compress_outcome.
  destruct (disk w !! fpath) as [[im wr|bytes]|]; [|done..].
  destruct (converted pil opts im) as [img|e]; [|done].
  destruct (can_write pil (format opts) (im_mode img));
    [|cbn [db warn]; by rewrite emptied_db].
  destruct (decide (fpath = new_filepath opts fname)); [done|].
  destruct (rows (db w) !! image_id) as [e|]; [|done].
  destruct (decide (path_held_by_other _ _ _)); [done|].
  by apply unique_paths_insert.
Qed.

Lemma compress_all_unique (pil : Pillow) (opts : options) (rs : list record) (w : world) :
  unique_paths (db w) →
  unique_paths (db (foldl (λ w r, compress_outcome pil opts r w) w rs)).
Proof.
  revert w. induction rs as [|r rs IH]; intros w Hu; simpl; [done|].
  by apply IH, compress_outcome_unique.
Qed.

Lemma add_files_total (files : list string) (added_count : Z) (w : world) :
  ∃ added_count' w', add_files files added_count w = Some (Ok added_count', w').
Proof.
  revert added_count w. induction files as [|f rest IH]; intros c w; simpl.
  - by exists c, w.
  - destruct (add_file_cases f c w) as (p & _ & _ & E).
    unfold bind. rewrite E. apply IH.
Qed.

(** ** The worlds above are well formed *)

Lemma empty_table_ok : table_ok empty_table.
Proof.
  split; [|done]. intros i j a b Hi. simpl in Hi. by rewrite lookup_empty in Hi.
Qed.

Lemma album_ok : table_ok (db album).
Proof.
  apply inserted_ok; [apply empty_table_ok|].
  intros (i & e & Hi & _). simpl in Hi. by rewrite lookup_empty in Hi.
Qed.

Lemma pair_ok : table_ok (db pair).
Proof.
  apply inserted_ok; [apply album_ok|].
  apply (proj1 (bool_decide_eq_false _)). by vm_compute.
Qed.

Lemma stale_path_held :
  path_held_by_other None "stored_images/photo.png" (db stale).
Proof.
  exists 1, (Entry "photo.png" "stored_images/photo.png").
  split; [by vm_compute|]. by split.
Qed.

(** * The specification, statement by statement *)

(** C1: a drop never fails; the count its last message reports is the number
    of rows the batch created (no row is lost or changed and the table grows
    by exactly that count), and afterwards no two rows have the same
    [filepath]. *)
Theorem dropEvent_count_and_unique_paths (urls : list url) (w : world) :
  table_ok (db w) →
  ∃ w', dropEvent urls w = Some (Ok tt, w')
    ∧ unique_paths (db w')
    ∧ rows (db w) ⊆ rows (db w')
    ∧ match dropped_files urls with
      | [] => db w' = db w ∧ shown w' = shown w ++ [NoImagesDropped]
      | _ :: _ =>
          ∃ added_count, last (shown w') = Some (ImagesAdded added_count)
            ∧ Z.of_nat (size (rows (db w')))
              = Z.of_nat (size (rows (db w))) + added_count
      end.
Proof.
  intros Hok. unfold dropEvent.
  destruct (dropped_files urls) as [|f files] eqn:E.
  - eexists. split; [done|]. simpl. split; [apply Hok|done].
  - destruct (add_files_spec (f :: files) 0 w Hok)
      as (n & w1 & Hrun & [Hu _] & Hsub & Hsize & _).
    eexists. unfold bind. rewrite Hrun. split; [done|]. simpl.
    split; [done|]. split; [done|]. exists n. rewrite last_snoc.
    split; [done|]. lia.
Qed.

Lemma dropEvent_count_and_unique_paths_witness :
  table_ok (db album) ∧
  ∃ w', dropEvent [Url true "/home/a/photo.png"; Url true "/home/b/photo.png"] album
        = Some (Ok tt, w')
    ∧ unique_paths (db w')
    ∧ rows (db album) ⊆ rows (db w')
    ∧ ∃ added_count, last (shown w') = Some (ImagesAdded added_count)
        ∧ Z.of_nat (size (rows (db w')))
          = Z.of_nat (size (rows (db album))) + added_count.
Proof.
  split; [exact album_ok|].
  exact (dropEvent_count_and_unique_paths
           [Url true "/home/a/photo.png"; Url true "/home/b/photo.png"] album album_ok).
Defined.

(** C2 as stated fails: an error of one item can go unreported.  The file
    [notes.txt] is skipped for its extension, and the INSERT for the copy of
    [photo.png] raises [IntegrityError], the path being that of a row whose
    file is gone; the drop shows its closing message and nothing else. *)
Lemma duplicate_path_error_is_not_reported :
  dropped_files [Url true "/home/a/notes.txt"; Url true "/home/a/photo.png"]
  = ["/home/a/photo.png"]
  ∧ choose_target "photo.png" stale = Some (Ok "stored_images/photo.png", stale)
  ∧ execute_insert "photo.png" "stored_images/photo.png"
      (with_disk (<["stored_images/photo.png" := palette_photo]> (disk stale)) stale)
    = Some (Raise (IntegrityError "stored_images/photo.png"),
            with_disk (<["stored_images/photo.png" := palette_photo]> (disk stale)) stale)
  ∧ dropEvent [Url true "/home/a/notes.txt"; Url true "/home/a/photo.png"] stale
    = Some (Ok tt,
            World (db stale)
                  (<["stored_images/photo.png" := palette_photo]> (disk stale))
                  [ImagesAdded 0]).
Proof. by vm_compute. Qed.

Lemma add_files_batch (files : list string) (added_count added_count' : Z)
    (w w' : world) :
  add_files files added_count w = Some (Ok added_count', w') →
  batch ingest_item (λ f, CouldNotAddImage (Py.basename f))
    files added_count w added_count' w'.
Proof.
  revert added_count w. induction files as [|f rest IH]; intros c w; cbn [add_files].
  - intros [= <- <-]. constructor.
  - unfold bind at 1, add_file, bind at 1.
    destruct (choose_target_spec (Py.basename f) w) as (p & Hp & _).
    rewrite Hp. unfold try_except.
    destruct (add_file_try f p c w) as [[[c1|e] w1]|] eqn:Etry; [| |done].
    + intros Hrest. apply (batch_ok _ _ f rest c w c1 w1); [|by apply IH].
      unfold ingest_item, bind. by rewrite Hp.
    + unfold bind, show. intros Hrest.
      apply (batch_error _ _ f rest c w e w1); [|by apply IH].
      unfold ingest_item, bind. by rewrite Hp.
Qed.

Lemma for_each_batch (pil : Pillow) (opts : options) (rs : list record) (w w' : world) :
  for_each rs (compress_image pil opts) w = Some (Ok tt, w') →
  batch (compress_item pil opts) (λ r, CompressionError r.1.2) rs tt w tt w'.
Proof.
  revert w. induction rs as [|r rest IH]; intros w; cbn [for_each].
  - intros [= <-]. constructor.
  - unfold bind at 1, compress_image, try_except.
    destruct (compress_body pil opts r w) as [[[[]|e] w1]|] eqn:Ebody; [| |done].
    + intros Hrest. apply (batch_ok _ _ r rest tt w tt w1); [exact Ebody|by apply IH].
    + unfold show. intros Hrest.
      apply (batch_error _ _ r rest tt w e w1); [exact Ebody|by apply IH].
Qed.

(** C2, amended: each handler returns, and what it leaves is what a batch
    over its items leaves, with the closing message after it: every usable
    dropped file, and every record of the list selected at the start, is
    processed in its turn; an exception that leaves the processing of an item
    is shown in a warning that names the item, and the items after it are
    processed all the same; the closing message of [compress_all_images]
    counts the records selected at the start.  Not every failure is such an
    exception: a dropped file whose target path a row already has is copied
    and passed over in silence, [add_image] having turned the
    [IntegrityError] into [None], and urls that are no usable files are not
    items at all.  With three rows, the file of the second one listed
    missing: one warning, for that row, the other two rows moved to their
    output paths, and a closing count of three. *)
Theorem batches_report_item_errors (pil : Pillow) (opts : options) :
  (∀ urls w, ∃ added_count w1,
     batch ingest_item (λ f, CouldNotAddImage (Py.basename f))
       (dropped_files urls) 0 w added_count w1
     ∧ dropEvent urls w
       = Some (Ok tt,
               match dropped_files urls with
               | [] => World (db w) (disk w) (shown w ++ [NoImagesDropped])
               | _ => World (db w1) (disk w1) (shown w1 ++ [ImagesAdded added_count])
               end))
  ∧ (∀ w, ∃ w1,
       batch (compress_item pil opts) (λ r, CompressionError r.1.2)
         (select_all_desc (db w)) tt w tt w1
       ∧ compress_all_images pil opts w
         = Some (Ok tt,
                 match select_all_desc (db w) with
                 | [] => World (db w) (disk w) (shown w ++ [NoImagesInDatabase])
                 | snapshot =>
                     World (db w1) (disk w1)
                           (shown w1 ++ [CompressionComplete (length snapshot)])
                 end)
       ∧ length (select_all_desc (db w)) = size (rows (db w)))
  ∧ (∀ f p added_count content w,
       choose_target (Py.basename f) w = Some (Ok p, w) →
       disk w !! f = Some content →
       has_room (db w) →
       path_held_by_other None p (db w) →
       ingest_item f added_count w
       = Some (Ok added_count, World (db w) (<[p := content]> (disk w)) (shown w)))
  ∧ match compress_all_images stock_pillow (Options 80 8 JPEG)
            (World (inserted "c.png" "stored_images/c.png"
                     (inserted "b.png" "stored_images/b.png"
                       (inserted "a.png" "stored_images/a.png" empty_table)))
                   (<["stored_images/a.png" := rgb_photo]>
                     (<["stored_images/c.png" := palette_photo]> ∅))
                   []) with
    | Some (Ok _, w') =>
        rows (db w') !! 3 = Some (Entry "c.png" "stored_images/c_compressed.jpeg")
        ∧ rows (db w') !! 2 = Some (Entry "b.png" "stored_images/b.png")
        ∧ rows (db w') !! 1 = Some (Entry "a.png" "stored_images/a_compressed.jpeg")
        ∧ shown w'
          = [CompressionError "b.png" (FileNotFoundError "stored_images/b.png");
             CompressionComplete 3]
    | _ => False
    end.
Proof.
  split; [|split; [|split]].
  - intros urls w. unfold dropEvent.
    destruct (dropped_files urls) as [|f files].
    { exists 0, w. split; [constructor|done]. }
    destruct (add_files_total (f :: files) 0 w) as (n & w1 & E).
    exists n, w1. split; [by apply add_files_batch|].
    unfold bind. by rewrite E.
  - intros w. rewrite compress_all_images_run.
    exists (foldl (λ w r, compress_outcome pil opts r w) w (select_all_desc (db w))).
    split; [apply for_each_batch, for_each_compress_run|].
    split; [|apply select_all_desc_length].
    by destruct (select_all_desc (db w)).
  - intros f p c content w Hp Hf Hroom Hheld.
    unfold ingest_item, bind at 1. rewrite Hp.
    unfold add_file_try, bind at 1, copy2. rewrite Hf.
    unfold bind. rewrite add_image_taken by done. done.
  - by vm_compute.
Qed.

(** C3: the search for a name ends on every set of files: a budget of more
    iterations than there are files is never used up, and the answer does not
    depend on it.  The search keeps the plain name when that is free;
    otherwise it returns [base_k ext] for the least [k >= 1] that is free,
    every smaller suffix being taken.  The copy
    goes to that name, so the files that were there keep their contents.
    Dropping two files named [photo.png] next to a stored [photo.png] leaves
    [photo.png] as it was and adds [photo_1.png] and [photo_2.png]. *)
Theorem place_picks_least_free_suffix :
  (∀ (f : string) (added_count : Z) (w : world),
    let fname := Py.basename f in
    let base := (Py.splitext fname).1 in
    let ext := (Py.splitext fname).2 in
    ∃ p, choose_target fname w = Some (Ok p, w)
      ∧ (∀ fuel, (size (disk w) < fuel)%nat →
           while_exists fuel (disk w) base ext 1 (Py.join IMAGES_DIR fname) = Some p)
      ∧ disk w !! p = None
      ∧ (if path_exists (disk w) (Py.join IMAGES_DIR fname) then
           ∃ k : N, (1 ≤ k)%N
             ∧ p = Py.join IMAGES_DIR (base +:+ "_" +:+ pretty k +:+ ext)
             ∧ ∀ j : N, (1 ≤ j < k)%N →
                 is_Some (disk w !!
                   Py.join IMAGES_DIR (base +:+ "_" +:+ pretty j +:+ ext))
         else p = Py.join IMAGES_DIR fname)
      ∧ ∃ added_count' w', add_file f added_count w = Some (Ok added_count', w')
          ∧ (∀ q, is_Some (disk w !! q) → disk w' !! q = disk w !! q)
          ∧ (∀ content, disk w !! f = Some content →
               disk w' = <[p := content]> (disk w)))
  ∧ match dropEvent [Url true "/home/a/photo.png"; Url true "/home/b/photo.png"]
            album with
    | Some (Ok _, w') =>
        disk w' !! "stored_images/photo.png" = Some rgb_photo
        ∧ disk w' !! "stored_images/photo_1.png" = Some palette_photo
        ∧ disk w' !! "stored_images/photo_2.png" = Some rgba_photo
        ∧ size (disk w') = S (S (size (disk album)))
    | _ => False
    end.
Proof.
  split; [|by vm_compute].
  intros f c w fname base ext.
  destruct (choose_target_spec fname w) as (p & Hp & Hfuel & Hfree & Hname).
  exists p. split; [done|]. split; [done|]. split; [done|]. split.
  - destruct (path_exists (disk w) (Py.join IMAGES_DIR fname)); [|done].
    destruct Hname as (k & Hk & -> & Hbelow). exists k.
    split; [done|]. split; [done|]. intros j Hj.
    specialize (Hbelow j Hj). by apply bool_decide_eq_true in Hbelow.
  - destruct (add_file_cases f c w) as (p' & Hp' & _ & E).
    assert (p' = p) as -> by (unfold fname in Hp; congruence).
    eexists _, _. split; [exact E|]. unfold add_file_outcome.
    destruct (disk w !! f) as [content|] eqn:Hf.
    + assert (∀ q, is_Some (disk w !! q) → <[p:=content]> (disk w) !! q = disk w !! q)
        as Hkeep.
      { intros q [x Hq]. apply lookup_insert_ne. congruence. }
      destruct (decide (max_rowid < next_rowid (db w)));
        [|destruct (decide (path_held_by_other None p (db w)))]; simpl;
        (split; [done|]); by intros ? [= ->].
    + simpl. split; [done|]. by intros ?.
Qed.

(** C4 as stated fails: a CMYK picture has four colour channels, and at
    [bit_depth = 8] it is converted to the single channel ["L"]. *)
Lemma depth8_cmyk_becomes_grayscale :
  multi_channel_color M_CMYK
  ∧ convert_bit_depth stock_pillow (Options 75 8 JPEG) (Image M_CMYK "poster") album
    = Some (Ok (Image M_L "poster"), album)
  ∧ single_channel M_L.
Proof. unfold multi_channel_color, single_channel. simpl. repeat split; lia. Qed.

(** C4, amended: at [bit_depth = 8] a picture of mode ["RGB"] or ["RGBA"] is
    converted to the three channels of ["RGB"], and a picture of any other
    mode to the one channel of ["L"], where Pillow has the conversion; where
    it has not, the call raises [ValueError].  With Pillow as released an
    ["RGB"] picture stays ["RGB"], and a picture of any single-channel mode
    becomes ["L"]. *)
Theorem depth8_policy (pil : Pillow) (q : Z) (fmt : Format) (img : image) (w : world) :
  let to := if bool_decide (im_mode img = M_RGB ∨ im_mode img = M_RGBA)
            then M_RGB else M_L in
  convert_bit_depth pil (Options q 8 fmt) img w
  = (if can_convert pil (im_mode img) to
     then Some (Ok (Image to (im_pixels img)), w)
     else Some (Raise (ValueError (im_mode img) to), w))
  ∧ bands M_RGB = ["R"; "G"; "B"]
  ∧ bands M_L = ["L"]
  ∧ (im_mode img = M_RGB →
       convert_bit_depth stock_pillow (Options q 8 fmt) img w = Some (Ok img, w))
  ∧ (single_channel (im_mode img) →
       convert_bit_depth stock_pillow (Options q 8 fmt) img w
       = Some (Ok (Image M_L (im_pixels img)), w)).
Proof.
  intros to.
  assert (∀ pil', convert_bit_depth pil' (Options q 8 fmt) img w
          = (if can_convert pil' (im_mode img) to
             then Some (Ok (Image to (im_pixels img)), w)
             else Some (Raise (ValueError (im_mode img) to), w))) as Heq.
  { intros pil'. unfold convert_bit_depth, convert, to. cbn [bit_depth].
    change (bool_decide (8 = 1)) with false. change (bool_decide (8 = 8)) with true.
    cbv iota.
    destruct (im_mode img);
      (change (bool_decide (_ ≠ M_RGB) && bool_decide (_ ≠ M_RGBA)) with true
       || change (bool_decide (_ ≠ M_RGB) && bool_decide (_ ≠ M_RGBA)) with false);
      cbv iota;
      (change (bool_decide (_ = M_RGB ∨ _ = M_RGBA)) with true
       || change (bool_decide (_ = M_RGB ∨ _ = M_RGBA)) with false);
      cbv iota; by destruct (can_convert pil' _ _). }
  split; [apply Heq|]. split; [done|]. split; [done|]. split.
  - intros Hm. rewrite Heq. unfold to. destruct img as [m px]. cbn [im_mode] in *.
    by subst m.
  - intros Hs. rewrite Heq. unfold to, single_channel in *.
    destruct (im_mode img); simpl in Hs; try discriminate; done.
Qed.



(** C6 as stated fails: with no row 99 in the table, both
    statements run without an error and change nothing. *)
Lemma unknown_id_is_no_error :
  rows (db pair) !! 99 = None
  ∧ update_image_path 99 "stored_images/elsewhere.png" pair = Some (Ok tt, pair)
  ∧ delete_image 99 pair = Some (Ok tt, pair).
Proof. by vm_compute. Qed.

(** C6, amended: for an id the table does not have, [update_image_path] and
    [delete_image] return normally and leave table, files and messages as
    they were; [delete_image] never touches the files, whatever the id. *)
Theorem unknown_id_changes_nothing (image_id : Z) (new_filepath : string) (w : world) :
  rows (db w) !! image_id = None →
  update_image_path image_id new_filepath w = Some (Ok tt, w)
  ∧ delete_image image_id w = Some (Ok tt, w)
  ∧ ∀ id w0, ∃ w1, delete_image id w0 = Some (Ok tt, w1)
      ∧ disk w1 = disk w0
      ∧ rows (db w1) = delete id (rows (db w0)).
Proof.
  intros Hnone. split; [by apply execute_update_unknown|]. split.
  - unfold delete_image, execute_delete, with_db. rewrite delete_id by done.
    by destruct w as [[rs s] d m].
  - intros id w0. by eexists.
Qed.

Lemma unknown_id_changes_nothing_witness :
  rows (db pair) !! 99 = None
  ∧ update_image_path 99 "stored_images/elsewhere.png" pair = Some (Ok tt, pair)
  ∧ delete_image 99 pair = Some (Ok tt, pair)
  ∧ ∀ id w0, ∃ w1, delete_image id w0 = Some (Ok tt, w1)
      ∧ disk w1 = disk w0
      ∧ rows (db w1) = delete id (rows (db w0)).
Proof.
  split; [by vm_compute|].
  apply (unknown_id_changes_nothing 99 "stored_images/elsewhere.png" pair).
  by vm_compute.
Defined.

(** C7 as stated fails: moving row 1 to the path of row 2 raises
    [IntegrityError], and the table is as before. *)
Lemma update_to_taken_path_is_refused :
  rows (db pair) !! 1 = Some (Entry "photo.png" "stored_images/photo.png")
  ∧ rows (db pair) !! 2 = Some (Entry "photo.bmp" "stored_images/photo.bmp")
  ∧ update_image_path 1 "stored_images/photo.bmp" pair
    = Some (Raise (IntegrityError "stored_images/photo.bmp"), pair).
Proof. by vm_compute. Qed.

(** C7, amended: [update_image_path] makes no check of its own, but the
    UNIQUE column does: given the path of another row, the statement raises
    [IntegrityError] and changes nothing; and whatever path it is given, a
    table without duplicate paths has none afterwards. *)
Theorem update_path_keeps_paths_unique (image_id other : Z) (e e' : entry) (w : world) :
  rows (db w) !! image_id = Some e →
  rows (db w) !! other = Some e' →
  image_id ≠ other →
  unique_paths (db w) →
  update_image_path image_id (filepath e') w
  = Some (Raise (IntegrityError (filepath e')), w)
  ∧ ∀ p r w', update_image_path image_id p w = Some (r, w') → unique_paths (db w').
Proof.
  intros He He' Hne Hu. split.
  - apply (execute_update_taken _ _ e); [done|].
    exists other, e'. split; [done|]. split; [congruence|done].
  - intros p r w' Hrun. unfold update_image_path in Hrun.
    destruct (decide (path_held_by_other (Some image_id) p (db w))) as [Hh|Hh].
    + rewrite (execute_update_taken _ _ e) in Hrun by done. by injection Hrun as _ <-.
    + rewrite (execute_update_free _ _ e) in Hrun by done. injection Hrun as _ <-.
      by apply unique_paths_insert.
Qed.

Lemma update_path_keeps_paths_unique_witness :
  unique_paths (db pair)
  ∧ update_image_path 1 "stored_images/photo.bmp" pair
    = Some (Raise (IntegrityError "stored_images/photo.bmp"), pair)
  ∧ ∀ p r w', update_image_path 1 p pair = Some (r, w') → unique_paths (db w').
Proof.
  split; [apply pair_ok|].
  apply (update_path_keeps_paths_unique 1 2
           (Entry "photo.png" "stored_images/photo.png")
           (Entry "photo.bmp" "stored_images/photo.bmp") pair).
  - by vm_compute.
  - by vm_compute.
  - done.
  - apply pair_ok.
Defined.

(** C8 as stated fails in its last part: the row that made the
    insert fail has the very path of the copy, so a row does point to the
    copied file. *)
Lemma orphan_copy_has_a_row :
  match dropEvent [Url true "/home/a/photo.png"] stale with
  | Some (Ok _, w') =>
      db w' = db stale
      ∧ shown w' = [ImagesAdded 0]
      ∧ disk stale !! "stored_images/photo.png" = None
      ∧ disk w' !! "stored_images/photo.png" = Some palette_photo
      ∧ rows (db w') !! 1 = Some (Entry "photo.png" "stored_images/photo.png")
  | _ => False
  end.
Proof. by vm_compute. Qed.

(** C8, amended: in a table that still has a key to give, [add_image] with
    a path some row already has returns [None] and changes nothing.  A
    dropped file whose target is such a path is copied there and stays
    there, no row is created for it, no message is shown, and the count is
    not raised; the rows with that path are the ones that were there. *)
Theorem duplicate_path_is_not_counted (f fpath : string) (added_count : Z)
    (content : file) (w : world) :
  has_room (db w) →
  path_held_by_other None fpath (db w) →
  choose_target (Py.basename f) w = Some (Ok fpath, w) →
  disk w !! f = Some content →
  (∀ fname, add_image fname fpath w = Some (Ok None, w))
  ∧ truthy None = false
  ∧ add_file f added_count w
    = Some (Ok added_count, World (db w) (<[fpath := content]> (disk w)) (shown w))
  ∧ ∃ i e, rows (db w) !! i = Some e ∧ filepath e = fpath.
Proof.
  intros Hroom Hheld Hp Hf. split; [intros fname; by apply add_image_taken|].
  split; [done|]. split.
  - destruct (add_file_cases f added_count w) as (p & Hp' & _ & ->).
    assert (p = fpath) as -> by congruence.
    unfold add_file_outcome, has_room in *. rewrite Hf.
    rewrite decide_False by lia. by rewrite decide_True.
  - destruct Hheld as (i & e & Hi & _ & He). by exists i, e.
Qed.

Lemma duplicate_path_is_not_counted_witness :
  has_room (db stale)
  ∧ path_held_by_other None "stored_images/photo.png" (db stale)
  ∧ (∀ fname, add_image fname "stored_images/photo.png" stale = Some (Ok None, stale))
  ∧ truthy None = false
  ∧ add_file "/home/a/photo.png" 0 stale
    = Some (Ok 0, World (db stale)
                        (<["stored_images/photo.png" := palette_photo]> (disk stale))
                        (shown stale))
  ∧ ∃ i e, rows (db stale) !! i = Some e ∧ filepath e = "stored_images/photo.png".
Proof.
  assert (has_room (db stale)) as Hroom by (by vm_compute).
  split; [exact Hroom|]. split; [exact stale_path_held|].
  apply (duplicate_path_is_not_counted "/home/a/photo.png"
           "stored_images/photo.png" 0 palette_photo stale).
  - exact Hroom.
  - exact stale_path_held.
  - by vm_compute.
  - by vm_compute.
Defined.

(** C9: the keyword arguments of [save] depend on the format alone: JPEG gets
    the quality and [optimize=True], WEBP the quality and [method=6], PNG and
    BMP none.  The output path is [IMAGES_DIR] joined with the base of the
    row's file name, ["_compressed."] and the format's name in lower case;
    for a file name that does not start with a slash that is
    [stored_images/<base>_compressed.<ext>].  A pass that encodes leaves at
    that path the converted picture, written with that format and those
    arguments. *)
Theorem encode_parameters_and_output_path (pil : Pillow) (opts : options)
    (image_id : Z) (fname fpath : string) (w : world) :
  save_kwargs opts
  = match format opts with
    | JPEG => <["optimize" := PyBool true]> (<["quality" := PyInt (quality opts)]> ∅)
    | WEBP => <["method" := PyInt 6]> (<["quality" := PyInt (quality opts)]> ∅)
    | PNG | BMP => ∅
    end
  ∧ new_filepath opts fname
    = Py.join IMAGES_DIR
        ((Py.splitext fname).1 +:+ "_compressed" +:+ "." +:+
         match format opts with
         | JPEG => "jpeg" | PNG => "png" | WEBP => "webp" | BMP => "bmp"
         end)
  ∧ (Py.startswith "/" fname = false →
     new_filepath opts fname
     = "stored_images/" +:+ (Py.splitext fname).1 +:+ "_compressed." +:+
       Py.lower (format_name (format opts)))
  ∧ new_filepath (Options 80 8 JPEG) "photo.png" = "stored_images/photo_compressed.jpeg"
  ∧ ∃ w', compress_image pil opts (image_id, fname, fpath) w = Some (Ok tt, w')
      ∧ ∀ im wr img,
          disk w !! fpath = Some (Picture im wr) →
          convert_bit_depth pil opts im w = Some (Ok img, w) →
          can_write pil (format opts) (im_mode img) = true →
          disk w' !! new_filepath opts fname
          = Some (Picture img (Some (format opts, save_kwargs opts))).
Proof.
  split; [by destruct opts as [q d []]|].
  split; [by destruct opts as [q d []]|].
  split; [|split; [done|]].
  - intros Hf. unfold new_filepath, new_filename, Py.join.
    by rewrite startswith_base.
  - eexists. split; [apply compress_image_run|].
    intros im wr img Hdisk Hc Hw. unfold compress_outcome. rewrite Hdisk.
    rewrite convert_bit_depth_run in Hc. injection Hc as ->. rewrite Hw.
    destruct (decide (fpath = new_filepath opts fname)) as [->|Hne].
    + apply lookup_insert_eq.
    + assert (∀ w1, disk w1 = delete fpath
                (<[new_filepath opts fname := written opts img]> (disk w)) →
              disk w1 !! new_filepath opts fname = Some (written opts img)) as Hlook.
      { intros w1 ->. rewrite lookup_delete_ne by done. apply lookup_insert_eq. }
      destruct (rows (db w) !! image_id); [|by apply Hlook].
      destruct (decide _); by apply Hlook.
Qed.

(** C10 as stated fails in its conclusion: no run of
    [compress_all_images] that starts from a table without duplicate paths
    ends in a table with one. *)
Lemma compress_all_never_duplicates_a_path :
  ¬ ∃ pil opts w w',
      unique_paths (db w)
      ∧ compress_all_images pil opts w = Some (Ok tt, w')
      ∧ ¬ unique_paths (db w').
Proof.
  intros (pil & opts & w & w' & Hu & Hrun & Hbad).
  rewrite compress_all_images_run in Hrun. injection Hrun as <-.
  apply Hbad. destruct (select_all_desc (db w)) as [|r rs]; [done|].
  cbn [db]. by apply compress_all_unique.
Qed.

(** C10, amended: the output name is built from the base of the file name
    alone, so rows whose file names share a base get the same output path.
    When a row is compressed while another row has that path, the encode
    replaces the file at that path and the original is removed, but the UNIQUE
    column refuses the new path: the refusal is shown, the row keeps the path
    of the file just removed, and the table still has no duplicate paths.  So
    for [photo.png] and [photo.bmp]: [photo.bmp] (id 2, compressed first) gets
    [photo_compressed.jpeg], which then holds the picture of [photo.png];
    [photo.png] keeps a path with no file. *)
Theorem compress_all_collides_on_names_not_in_table (pil : Pillow) (opts : options) :
  (∀ f1 f2, (Py.splitext f1).1 = (Py.splitext f2).1 →
     new_filepath opts f1 = new_filepath opts f2)
  ∧ (∀ image_id other e e' fname fpath im wr img w,
       rows (db w) !! image_id = Some e →
       rows (db w) !! other = Some e' →
       other ≠ image_id →
       filepath e' = new_filepath opts fname →
       fpath ≠ new_filepath opts fname →
       disk w !! fpath = Some (Picture im wr) →
       convert_bit_depth pil opts im w = Some (Ok img, w) →
       can_write pil (format opts) (im_mode img) = true →
       compress_image pil opts (image_id, fname, fpath) w
       = Some (Ok tt,
           World (db w)
             (delete fpath
                (<[new_filepath opts fname
                   := Picture img (Some (format opts, save_kwargs opts))]> (disk w)))
             (shown w
              ++ [CompressionError fname (IntegrityError (new_filepath opts fname))])))
  ∧ (∀ w, unique_paths (db w) →
       ∃ w', compress_all_images pil opts w = Some (Ok tt, w')
         ∧ unique_paths (db w'))
  ∧ match compress_all_images stock_pillow (Options 80 8 JPEG) pair with
    | Some (Ok _, w') =>
        rows (db w') !! 2
        = Some (Entry "photo.bmp" "stored_images/photo_compressed.jpeg")
        ∧ rows (db w') !! 1 = Some (Entry "photo.png" "stored_images/photo.png")
        ∧ disk w' !! "stored_images/photo.png" = None
        ∧ disk w' !! "stored_images/photo.bmp" = None
        ∧ disk w' !! "stored_images/photo_compressed.jpeg"
          = Some (Picture (Image M_RGB "photo")
                          (Some (JPEG, save_kwargs (Options 80 8 JPEG))))
        ∧ shown w'
          = [CompressionError "photo.png"
               (IntegrityError "stored_images/photo_compressed.jpeg");
             CompressionComplete 2]
    | _ => False
    end.
Proof.
  split; [|split; [|split]].
  - intros f1 f2 H. unfold new_filepath, new_filename. by rewrite H.
  - intros image_id other e e' fname fpath im wr img w He He' Hne Hpath Hdiff Hf Hc Hw.
    rewrite compress_image_run. unfold compress_outcome. rewrite Hf.
    rewrite convert_bit_depth_run in Hc. injection Hc as ->. rewrite Hw.
    rewrite decide_False by done. rewrite He. rewrite decide_True; [done|].
    exists other, e'. split; [done|]. split; [congruence|done].
  - intros w Hu. eexists. split; [apply compress_all_images_run|].
    destruct (select_all_desc (db w)) as [|r rs]; [done|].
    cbn [db]. by apply compress_all_unique.
  - by vm_compute.
Qed.

(** A gray picture at [bit_depth = 16] becomes ["I;16"], which the JPEG
    encoder refuses: the refusal is shown, and, there being no file at the
    output path, table and files are as before. *)
Example refused_encode_changes_nothing :
  let gray :=
    World (inserted "scan.png" "stored_images/scan.png" empty_table)
          (<["stored_images/scan.png" := Picture (Image M_L "scan") None]> ∅)
          [] in
  match compress_all_images stock_pillow (Options 80 16 JPEG) gray with
  | Some (Ok _, w') =>
      db w' = db gray
      ∧ disk w' = disk gray
      ∧ shown w' = [CompressionError "scan.png" (OSError JPEG M_I16);
                    CompressionComplete 1]
  | _ => False
  end.
Proof. by vm_compute. Qed.

(** Compressing twice to the same format: the second pass writes over the
    file the row already has, so nothing is removed and the row is kept. *)
Example second_pass_overwrites_in_place :
  let once :=
    World (inserted "photo.png" "stored_images/photo_compressed.jpeg" empty_table)
          (<["stored_images/photo_compressed.jpeg"
             := Picture (Image M_RGB "photo") (Some (JPEG, save_kwargs (Options 80 8 JPEG)))]> ∅)
          [] in
  match compress_all_images stock_pillow (Options 40 8 JPEG) once with
  | Some (Ok _, w') =>
      db w' = db once
      ∧ disk w' !! "stored_images/photo_compressed.jpeg"
        = Some (Picture (Image M_RGB "photo")
                        (Some (JPEG, save_kwargs (Options 40 8 JPEG))))
      ∧ shown w' = [CompressionComplete 1]
  | _ => False
  end.
Proof. by vm_compute. Qed.

(** ** The listing *)

Global Instance id_desc_trans : Transitive id_desc.
Proof. intros a b c. unfold id_desc. lia. Qed.

Global Instance id_desc_total : Total id_desc.
Proof. intros a b. unfold id_desc. lia. Qed.

Lemma sorted_rows_perm (t : table) :
  merge_sort id_desc (map_to_list (rows t)) ≡ₚ map_to_list (rows t).
Proof. apply merge_sort_Permutation. Qed.

Lemma sorted_rows_elem (t : table) (i : Z) (e : entry) :
  (i, e) ∈ merge_sort id_desc (map_to_list (rows t)) ↔ rows t !! i = Some e.
Proof. by rewrite sorted_rows_perm, elem_of_map_to_list. Qed.

Lemma elem_of_select_all_desc (t : table) (i : Z) (fname fpath : string) :
  (i, fname, fpath) ∈ select_all_desc t ↔ rows t !! i = Some (Entry fname fpath).
Proof.
  unfold select_all_desc. rewrite list_elem_of_fmap. split.
  - intros ([j [fn fp]] & Heq & Hin). simpl in Heq. injection Heq as -> -> ->.
    by apply sorted_rows_elem in Hin.
  - intros H. exists (i, Entry fname fpath). split; [done|].
    by apply sorted_rows_elem in H.
Qed.

(** Sorted by a key without repetitions is sorted strictly. *)
Lemma sorted_rows_strict (t : table) :
  StronglySorted (λ a b : Z * entry, a.1 > b.1)
    (merge_sort id_desc (map_to_list (rows t))).
Proof.
  assert (NoDup (merge_sort id_desc (map_to_list (rows t))).*1) as Hnd.
  { rewrite sorted_rows_perm. apply NoDup_fst_map_to_list. }
  pose proof (StronglySorted_merge_sort id_desc (map_to_list (rows t))) as Hs.
  induction Hs as [|x l Hs IH Hx]; [constructor|].
  rewrite fmap_cons in Hnd. apply NoDup_cons in Hnd as [Hnotin Hnd].
  constructor; [by apply IH|].
  rewrite Forall_forall in Hx. apply Forall_forall. intros y Hy.
  specialize (Hx y Hy). unfold id_desc in Hx.
  assert (x.1 ≠ y.1).
  { intros Heq. apply Hnotin. rewrite Heq. apply list_elem_of_fmap. by exists y. }
  lia.
Qed.

Lemma select_all_desc_newest_first (t : table) : newest_first (select_all_desc t).
Proof.
  unfold newest_first, select_all_desc.
  eapply StronglySorted_fmap; [|apply sorted_rows_strict]. by intros [i e] [j e'].
Qed.

Lemma select_all_desc_inserted (fname fpath : string) (t : table) :
  select_all_desc (inserted fname fpath t)
  = (next_rowid t, fname, fpath) :: select_all_desc t.
Proof.
  unfold select_all_desc.
  assert (merge_sort id_desc (map_to_list (rows (inserted fname fpath t)))
          = (next_rowid t, Entry fname fpath)
              :: merge_sort id_desc (map_to_list (rows t))) as ->; [|done].
  apply (StronglySorted_unique_strong id_desc).
  - intros [i e] [j e'] H1 H2 Hij Hji. unfold id_desc in Hij, Hji.
    cbn [fst] in Hij, Hji. assert (i = j) as -> by lia.
    apply sorted_rows_elem in H1.
    assert (rows (inserted fname fpath t) !! j = Some e') as H2'.
    { unfold inserted. cbn [rows]. apply elem_of_cons in H2 as [[= -> ->]|H2].
      - apply lookup_insert_eq.
      - apply sorted_rows_elem in H2. rewrite lookup_insert_ne; [done|].
        intros <-. by rewrite next_rowid_fresh in H2. }
    congruence.
  - apply StronglySorted_merge_sort; apply _.
  - constructor; [apply StronglySorted_merge_sort; apply _|].
    apply Forall_forall. intros [j e'] Hj. apply sorted_rows_elem in Hj.
    apply next_rowid_above_keys in Hj. unfold id_desc. simpl. lia.
  - rewrite !sorted_rows_perm. unfold inserted. cbn [rows].
    by rewrite map_to_list_insert by apply next_rowid_fresh.
Qed.

(** ** What the operations do to the table *)

(** The table after one dropped file is the table before, or that table with
    one row inserted under a path no row had. *)
Lemma add_file_db (f : string) (added_count : Z) (w : world) :
  ∃ added_count' w', add_file f added_count w = Some (Ok added_count', w')
    ∧ (db w' = db w
       ∨ ∃ fname fpath, ¬ path_held_by_other None fpath (db w)
           ∧ db w' = inserted fname fpath (db w)).
Proof.
  destruct (add_file_cases f added_count w) as (p & _ & _ & ->).
  eexists _, _. split; [done|]. unfold add_file_outcome.
  destruct (disk w !! f); [|by left].
  destruct (decide (max_rowid < next_rowid (db w))); [by left|].
  destruct (decide (path_held_by_other None p (db w))); [by left|].
  right. by eexists _, _.
Qed.

Lemma add_files_db_ind (Q : table → Prop) :
  (∀ fname fpath t, Q t → ¬ path_held_by_other None fpath t →
     Q (inserted fname fpath t)) →
  ∀ files added_count w, Q (db w) →
    ∃ added_count' w', add_files files added_count w = Some (Ok added_count', w')
      ∧ Q (db w').
Proof.
  intros Hins files. induction files as [|f rest IH]; intros c w HQ; simpl.
  - by exists c, w.
  - destruct (add_file_db f c w) as (c1 & w1 & E & Hdb).
    unfold bind. rewrite E. apply IH.
    destruct Hdb as [->|(fn & fp & Hfree & ->)]; [done|by apply Hins].
Qed.

Lemma dropEvent_db_ind (Q : table → Prop) (urls : list url) (w : world) :
  (∀ fname fpath t, Q t → ¬ path_held_by_other None fpath t →
     Q (inserted fname fpath t)) →
  Q (db w) → Q (db (state_after (dropEvent urls) w)).
Proof.
  intros Hins HQ. unfold state_after, dropEvent.
  destruct (dropped_files urls) as [|f files]; [done|].
  destruct (add_files_db_ind Q Hins (f :: files) 0 w HQ) as (n & w1 & E & HQ1).
  unfold bind. by rewrite E.
Qed.

(** The table after one pass of the compression loop is the table before, or
    that table with the row of the record moved to the output path. *)
Lemma compress_outcome_db (pil : Pillow) (opts : options)
    (image_id : Z) (fname fpath : string) (w : world) :
  db (compress_outcome pil opts (image_id, fname, fpath) w) = db w
  ∨ ∃ e, rows (db w) !! image_id = Some e
      ∧ ¬ path_held_by_other (Some image_id) (new_filepath opts fname) (db w)
      ∧ db (compress_outcome pil opts (image_id, fname, fpath) w)
        = repointed image_id e (new_filepath opts fname) (db w).
Proof.
  unfold compress_outcome.
  destruct (disk w !! fpath) as [[im wr|bytes]|]; [|by left..].
  destruct (converted pil opts im) as [img|e]; [|by left].
  destruct (can_write pil (format opts) (im_mode img));
    [|left; cbn [db warn]; apply emptied_db].
  destruct (decide (fpath = new_filepath opts fname)); [by left|].
  destruct (rows (db w) !! image_id) as [e|]; [|by left].
  destruct (decide (path_held_by_other _ _ _)); [by left|].
  right. by exists e.
Qed.

Lemma compress_all_db_ind (Q : table → Prop) (pil : Pillow) (opts : options) (w : world) :
  (∀ image_id e p t, Q t → rows t !! image_id = Some e →
     ¬ path_held_by_other (Some image_id) p t → Q (repointed image_id e p t)) →
  Q (db w) → Q (db (state_after (compress_all_images pil opts) w)).
Proof.
  intros Hupd HQ. unfold state_after. rewrite compress_all_images_run.
  destruct (select_all_desc (db w)) as [|r rs]; [done|]. cbn [db].
  generalize (r :: rs). intros l. revert w HQ.
  induction l as [|[[i fn] fp] l IH]; intros w HQ; cbn [foldl]; [done|].
  apply IH. destruct (compress_outcome_db pil opts i fn fp w) as [->|(e & He & Hfree & ->)];
    [done|by apply Hupd].
Qed.

Lemma perform_db_ind (Q : table → Prop) (a : action) (w : world) :
  (∀ fname fpath t, Q t → ¬ path_held_by_other None fpath t →
     Q (inserted fname fpath t)) →
  (∀ image_id e p t, Q t → rows t !! image_id = Some e →
     ¬ path_held_by_other (Some image_id) p t → Q (repointed image_id e p t)) →
  (∀ image_id t, Q t → Q (Table (delete image_id (rows t)) (sqlite_sequence t))) →
  Q (db w) → Q (db (perform w a)).
Proof.
  intros Hins Hupd Hdel HQ. destruct a as [urls|pil opts|fn fp|i p|i]; simpl.
  - by apply dropEvent_db_ind.
  - by apply compress_all_db_ind.
  - unfold state_after.
    destruct (add_image_db fn fp w) as (r & w' & -> & _ & _ & [->|(_ & Hfree & _ & ->)]);
      [done|by apply Hins].
  - unfold state_after, update_image_path.
    destruct (rows (db w) !! i) as [e|] eqn:He.
    + destruct (decide (path_held_by_other (Some i) p (db w))).
      * by rewrite (execute_update_taken _ _ e).
      * rewrite (execute_update_free _ _ e) by done. by apply Hupd.
    + by rewrite execute_update_unknown.
  - unfold state_after, delete_image, execute_delete. by apply Hdel.
Qed.

Lemma session_db_ind (Q : table → Prop) (acts : list action) (w : world) :
  (∀ fname fpath t, Q t → ¬ path_held_by_other None fpath t →
     Q (inserted fname fpath t)) →
  (∀ image_id e p t, Q t → rows t !! image_id = Some e →
     ¬ path_held_by_other (Some image_id) p t → Q (repointed image_id e p t)) →
  (∀ image_id t, Q t → Q (Table (delete image_id (rows t)) (sqlite_sequence t))) →
  Q (db w) → Q (db (session w acts)).
Proof.
  intros Hins Hupd Hdel. revert w. induction acts as [|a acts IH]; intros w HQ; [done|].
  simpl. apply IH. by apply perform_db_ind.
Qed.

Lemma newest_first_NoDup (l : list record) : newest_first l → NoDup l.
Proof.
  induction 1 as [|x l Hs IH Hx]; constructor; [|done].
  intros Hin. rewrite Forall_forall in Hx. specialize (Hx x Hin). lia.
Qed.

(** * More of the program *)

(** X1: [get_all_images] returns, without touching anything, the rows of the
    table and nothing else, each once, the largest id first. *)
Theorem get_all_images_lists_rows_newest_first (w : world) :
  ∃ images, get_all_images w = Some (Ok images, w)
    ∧ (∀ i fname fpath,
         (i, fname, fpath) ∈ images ↔ rows (db w) !! i = Some (Entry fname fpath))
    ∧ newest_first images
    ∧ NoDup images
    ∧ length images = size (rows (db w)).
Proof.
  exists (select_all_desc (db w)). split; [done|].
  split; [intros; apply elem_of_select_all_desc|].
  split; [apply select_all_desc_newest_first|].
  split; [apply newest_first_NoDup, select_all_desc_newest_first|].
  apply select_all_desc_length.
Qed.

(** X2: in a table that still has a key to give, an [add_image] with a path
    no row has returns a key that was not in the table, and the new row is
    then the first of the listing, in front of the rows listed before; files
    and messages are not touched. *)
Theorem added_image_is_listed_first (fname fpath : string) (w : world) :
  has_room (db w) →
  ¬ path_held_by_other None fpath (db w) →
  ∃ id w', add_image fname fpath w = Some (Ok (Some id), w')
    ∧ rows (db w) !! id = None
    ∧ get_all_images w'
      = Some (Ok ((id, fname, fpath) :: select_all_desc (db w)), w')
    ∧ disk w' = disk w
    ∧ shown w' = shown w.
Proof.
  intros Hroom Hfree. eexists _, _. split; [by apply add_image_free|].
  split; [apply next_rowid_fresh|]. split; [|done].
  unfold get_all_images. cbn [db with_db]. by rewrite select_all_desc_inserted.
Qed.

Lemma added_image_is_listed_first_witness :
  has_room (db pair)
  ∧ ¬ path_held_by_other None "stored_images/new.gif" (db pair)
  ∧ ∃ id w', add_image "new.gif" "stored_images/new.gif" pair = Some (Ok (Some id), w')
      ∧ rows (db pair) !! id = None
      ∧ get_all_images w'
        = Some (Ok ((id, "new.gif", "stored_images/new.gif") :: select_all_desc (db pair)), w')
      ∧ disk w' = disk pair
      ∧ shown w' = shown pair.
Proof.
  assert (¬ path_held_by_other None "stored_images/new.gif" (db pair)) as Hfree.
  { apply (proj1 (bool_decide_eq_false _)). by vm_compute. }
  assert (has_room (db pair)) as Hroom by (by vm_compute).
  split; [exact Hroom|]. split; [exact Hfree|].
  exact (added_image_is_listed_first "new.gif" "stored_images/new.gif" pair Hroom Hfree).
Defined.

(** X3: whatever is done, in whatever order (drops, compression batches,
    calls of [add_image], [update_image_path] and [delete_image]), a table
    that had no two rows with the same [filepath] and a counter that was not
    negative is still such a table. *)
Theorem session_keeps_table_ok (acts : list action) (w : world) :
  table_ok (db w) → table_ok (db (session w acts)).
Proof.
  apply session_db_ind.
  - intros fn fp t. apply inserted_ok.
  - intros i e p t [Hu Hs] He Hfree. split; [|done]. by apply unique_paths_insert.
  - intros i t [Hu Hs]. split; [|done]. by apply unique_paths_delete.
Qed.

Lemma session_keeps_table_ok_witness :
  table_ok (db pair)
  ∧ table_ok (db (session pair
       [Compress stock_pillow (Options 80 8 JPEG);
        UpdateImagePath 1 "stored_images/photo_compressed.jpeg";
        DeleteImage 2;
        Drop [Url true "stored_images/photo_compressed.jpeg"]])).
Proof.
  split; [exact pair_ok|]. exact (session_keeps_table_ok _ pair pair_ok).
Defined.

(** X4: keys are not used twice: after [add_image] has returned a key, every
    later [add_image] that returns a key returns a larger one, whatever was
    done in between, deleting the first row included. *)
Theorem ids_are_never_reused (fname fpath fname' fpath' : string) (id id' : Z)
    (acts : list action) (w w1 w3 : world) :
  add_image fname fpath w = Some (Ok (Some id), w1) →
  add_image fname' fpath' (session w1 acts) = Some (Ok (Some id'), w3) →
  id < id'.
Proof.
  intros Hadd Hadd'.
  assert (id ≤ sqlite_sequence (db w1))%Z as Hseq.
  { destruct (add_image_db fname fpath w)
      as (r & w' & E & _ & _ & [Hdb|(_ & _ & -> & Hdb)]); rewrite E in Hadd.
    - injection Hadd as -> ->. revert E. unfold add_image, try_except, bind.
      destruct (execute_insert fname fpath w) as [[[i|x] w2]|] eqn:Ei; [| |done].
      + intros [= <- <-]. revert Ei. unfold execute_insert.
        repeat destruct (decide _); try done. intros [= <- <-]. done.
      + by destruct x.
    - injection Hadd as <- <-. by rewrite Hdb. }
  assert (id ≤ sqlite_sequence (db (session w1 acts)))%Z as Hseq'.
  { revert Hseq. apply (session_db_ind (λ t, id ≤ sqlite_sequence t)%Z).
    - intros fn fp t Ht _. simpl. pose proof (next_rowid_above_sequence t). lia.
    - by intros i e p t Ht _ _.
    - by intros i t Ht. }
  assert (id' = next_rowid (db (session w1 acts))) as ->.
  { revert Hadd'. unfold add_image, try_except, bind.
    destruct (execute_insert fname' fpath' (session w1 acts)) as [[[i|x] w2]|] eqn:Ei;
      [| |done].
    - intros [= <- _]. revert Ei. unfold execute_insert.
      repeat destruct (decide _); try done. by intros [= <- _].
    - by destruct x. }
  pose proof (next_rowid_above_sequence (db (session w1 acts))). lia.
Qed.

Lemma ids_are_never_reused_witness :
  let w1 := state_after (add_image "new.gif" "stored_images/new.gif") pair in
  let acts := [DeleteImage 3; Compress stock_pillow (Options 80 8 PNG)] in
  let w3 := state_after (add_image "new.gif" "stored_images/new.gif") (session w1 acts) in
  add_image "new.gif" "stored_images/new.gif" pair = Some (Ok (Some 3), w1)
  ∧ add_image "new.gif" "stored_images/new.gif" (session w1 acts) = Some (Ok (Some 4), w3)
  ∧ 3 < 4.
Proof.
  intros w1 acts w3.
  assert (add_image "new.gif" "stored_images/new.gif" pair = Some (Ok (Some 3), w1))
    as H1 by (by vm_compute).
  assert (add_image "new.gif" "stored_images/new.gif" (session w1 acts)
          = Some (Ok (Some 4), w3)) as H2 by (by vm_compute).
  split; [exact H1|]. split; [exact H2|].
  exact (ids_are_never_reused _ _ _ _ 3 4 acts pair w1 w3 H1 H2).
Defined.

(** X5: in a table that still has a key to give, adding an image and
    deleting it again leaves the rows, and so the listing, as they were; the
    counter has moved on to the key that was given out. *)
Theorem add_then_delete_restores_rows (fname fpath : string) (w : world) :
  has_room (db w) →
  ¬ path_held_by_other None fpath (db w) →
  ∃ id w1 w2, add_image fname fpath w = Some (Ok (Some id), w1)
    ∧ delete_image id w1 = Some (Ok tt, w2)
    ∧ rows (db w2) = rows (db w)
    ∧ get_all_images w2 = Some (Ok (select_all_desc (db w)), w2)
    ∧ sqlite_sequence (db w) < id
    ∧ sqlite_sequence (db w2) = id
    ∧ disk w2 = disk w.
Proof.
  intros Hroom Hfree. eexists _, _, _. split; [by apply add_image_free|].
  split; [done|].
  assert (delete (next_rowid (db w)) (<[next_rowid (db w) := Entry fname fpath]> (rows (db w)))
          = rows (db w)) as Hrows.
  { rewrite delete_insert_eq. apply delete_id, next_rowid_fresh. }
  split; [exact Hrows|]. split.
  - unfold get_all_images, select_all_desc. cbn [db with_db rows inserted].
    by rewrite Hrows.
  - split; [apply next_rowid_above_sequence|done].
Qed.

Lemma add_then_delete_restores_rows_witness :
  has_room (db pair)
  ∧ ¬ path_held_by_other None "stored_images/new.gif" (db pair)
  ∧ ∃ id w1 w2, add_image "new.gif" "stored_images/new.gif" pair = Some (Ok (Some id), w1)
    ∧ delete_image id w1 = Some (Ok tt, w2)
    ∧ rows (db w2) = rows (db pair)
    ∧ get_all_images w2 = Some (Ok (select_all_desc (db pair)), w2)
    ∧ sqlite_sequence (db pair) < id
    ∧ sqlite_sequence (db w2) = id
    ∧ disk w2 = disk pair.
Proof.
  assert (¬ path_held_by_other None "stored_images/new.gif" (db pair)) as Hfree.
  { apply (proj1 (bool_decide_eq_false _)). by vm_compute. }
  assert (has_room (db pair)) as Hroom by (by vm_compute).
  split; [exact Hroom|]. split; [exact Hfree|].
  exact (add_then_delete_restores_rows "new.gif" "stored_images/new.gif" pair Hroom Hfree).
Defined.

Lemma next_rowid_delete (image_id : Z) (t : table) :
  next_rowid (Table (delete image_id (rows t)) (sqlite_sequence t)) <= next_rowid t.
Proof.
  pose proof (next_rowid_above_sequence t).
  unfold next_rowid at 1. cbn [rows sqlite_sequence].
  assert (foldr Z.max (sqlite_sequence t) (map_to_list (delete image_id (rows t))).*1
          <= next_rowid t - 1); [|lia].
  apply foldr_max_le; [lia|]. apply Forall_forall. intros i Hi.
  apply list_elem_of_fmap in Hi as ([j e] & -> & Hj).
  apply elem_of_map_to_list, lookup_delete_Some in Hj as [_ Hj].
  apply next_rowid_above_keys in Hj. cbn [fst]. lia.
Qed.

(** X6: in a table that still has a key to give, a path is taken as long as
    its row is there: while the row exists [add_image] with its path returns
    [None]; once the row is deleted, and no other row had that path,
    [add_image] with the path returns a key. *)
Theorem delete_frees_the_path (image_id : Z) (e : entry) (fname : string) (w : world) :
  has_room (db w) →
  rows (db w) !! image_id = Some e →
  unique_paths (db w) →
  add_image fname (filepath e) w = Some (Ok None, w)
  ∧ ∃ w1, delete_image image_id w = Some (Ok tt, w1)
      ∧ rows (db w1) !! image_id = None
      ∧ (∀ j, j ≠ image_id → rows (db w1) !! j = rows (db w) !! j)
      ∧ ∃ id' w2, add_image fname (filepath e) w1 = Some (Ok (Some id'), w2)
          ∧ rows (db w2) !! id' = Some (Entry fname (filepath e)).
Proof.
  intros Hroom He Hu. split.
  - apply add_image_taken; [done|]. exists image_id, e. by split.
  - eexists. split; [done|]. cbn [db with_db rows].
    split; [apply lookup_delete_eq|]. split; [intros j Hj; by apply lookup_delete_ne|].
    eexists _, _. split.
    + apply add_image_free.
      * unfold has_room in *. cbn [db with_db].
        pose proof (next_rowid_delete image_id (db w)). lia.
      * intros (j & e' & Hj & _ & Hp). cbn [db with_db rows] in Hj.
        apply lookup_delete_Some in Hj as [Hne Hj]. apply Hne. symmetry. by eapply Hu.
    + cbn [db with_db rows inserted]. apply lookup_insert_eq.
Qed.

Lemma delete_frees_the_path_witness :
  has_room (db pair)
  ∧ rows (db pair) !! 1 = Some (Entry "photo.png" "stored_images/photo.png")
  ∧ unique_paths (db pair)
  ∧ add_image "again.png" "stored_images/photo.png" pair = Some (Ok None, pair)
  ∧ ∃ w1, delete_image 1 pair = Some (Ok tt, w1)
      ∧ rows (db w1) !! 1 = None
      ∧ (∀ j, j ≠ 1 → rows (db w1) !! j = rows (db pair) !! j)
      ∧ ∃ id' w2, add_image "again.png" "stored_images/photo.png" w1
                  = Some (Ok (Some id'), w2)
          ∧ rows (db w2) !! id' = Some (Entry "again.png" "stored_images/photo.png").
Proof.
  assert (has_room (db pair)) as Hroom by (by vm_compute).
  assert (rows (db pair) !! 1 = Some (Entry "photo.png" "stored_images/photo.png"))
    as H1 by (by vm_compute).
  split; [exact Hroom|]. split; [exact H1|]. split; [apply pair_ok|].
  exact (delete_frees_the_path 1 (Entry "photo.png" "stored_images/photo.png")
           "again.png" pair Hroom H1 (proj1 pair_ok)).
Defined.

(** ** One dropped file, case by case *)

Lemma add_file_step (f : string) (added_count : Z) (w : world) :
  ∃ added_count' w' p, add_file f added_count w = Some (Ok added_count', w')
    ∧ disk w !! p = None
    ∧ ((disk w !! f = None
        ∧ added_count' = added_count
        ∧ w' = World (db w) (disk w)
                 (shown w ++ [CouldNotAddImage (Py.basename f) (FileNotFoundError f)]))
       ∨ (∃ content, disk w !! f = Some content
            ∧ ¬ has_room (db w)
            ∧ added_count' = added_count
            ∧ w' = World (db w) (<[p := content]> (disk w))
                     (shown w ++ [CouldNotAddImage (Py.basename f) OperationalError]))
       ∨ (∃ content, disk w !! f = Some content
            ∧ has_room (db w)
            ∧ path_held_by_other None p (db w)
            ∧ added_count' = added_count
            ∧ w' = World (db w) (<[p := content]> (disk w)) (shown w))
       ∨ (∃ content, disk w !! f = Some content
            ∧ has_room (db w)
            ∧ ¬ path_held_by_other None p (db w)
            ∧ added_count'
              = (if truthy (Some (next_rowid (db w)))
                 then added_count + 1 else added_count)
            ∧ w' = World (inserted (Py.basename p) p (db w))
                     (<[p := content]> (disk w)) (shown w))).
Proof.
  destruct (add_file_cases f added_count w) as (p & _ & Hfree & ->).
  eexists _, _, p. split; [done|]. split; [done|]. unfold add_file_outcome, has_room.
  destruct (disk w !! f) as [content|]; [|by left].
  destruct (decide (max_rowid < next_rowid (db w))).
  { right; left. exists content. split; [done|]. split; [lia|done]. }
  destruct (decide (path_held_by_other None p (db w))).
  - right; right; left. exists content. split; [done|]. split; [lia|done].
  - right; right; right. exists content. split; [done|]. split; [lia|done].
Qed.

(** What a drop may have done to a world [w0] by the time it is at [w]. *)
Record drop_inv (w0 w : world) : Prop := {
  drop_files_kept : ∀ q, is_Some (disk w0 !! q) → disk w !! q = disk w0 !! q;
  drop_rows_kept : rows (db w0) ⊆ rows (db w);
  drop_new_rows : ∀ i e, rows (db w) !! i = Some e →
    rows (db w0) !! i = Some e
    ∨ (rows (db w0) !! i = None
       ∧ filename e = Py.basename (filepath e)
       ∧ disk w0 !! filepath e = None
       ∧ is_Some (disk w !! filepath e));
  drop_new_files : ∀ q, disk w0 !! q = None → is_Some (disk w !! q) →
    ∃ f, is_Some (disk w !! f) ∧ disk w !! q = disk w !! f ∧ f ≠ q
}.

Lemma drop_inv_refl (w : world) : drop_inv w w.
Proof.
  split; [done|done|by left|].
  intros q Hq [x Hx]. congruence.
Qed.

Lemma drop_inv_shown (w0 w : world) (msgs : list message) :
  drop_inv w0 w → drop_inv w0 (World (db w) (disk w) msgs).
Proof. by intros []. Qed.

Lemma drop_inv_copy (w0 w : world) (p f : string) (content : file) :
  drop_inv w0 w → disk w !! p = None → disk w !! f = Some content →
  drop_inv w0 (World (db w) (<[p := content]> (disk w)) (shown w)).
Proof.
  intros [Hfiles Hrows Hnew Hnf] Hp Hf.
  assert (p ≠ f) as Hpf by congruence.
  split; cbn [db disk].
  - intros q Hq. rewrite lookup_insert_ne; [by apply Hfiles|].
    intros <-. rewrite Hfiles in Hp by done. rewrite Hp in Hq. by destruct Hq.
  - done.
  - intros i e He. destruct (Hnew i e He) as [?|(H1 & H2 & H3 & [x H4])]; [by left|].
    right. split; [done|]. split; [done|]. split; [done|].
    rewrite lookup_insert_ne by congruence. by eexists.
  - intros q Hq0 Hq. destruct (decide (q = p)) as [->|Hne].
    + exists f. rewrite lookup_insert_eq, lookup_insert_ne by done.
      split; [by eexists|]. split; [done|congruence].
    + rewrite lookup_insert_ne in Hq by done.
      destruct (Hnf q Hq0 Hq) as (g & [x Hg] & Heq & Hgq).
      exists g. rewrite !lookup_insert_ne by congruence.
      split; [by eexists|]. done.
Qed.

Lemma drop_inv_insert (w0 w : world) (p : string) (content : file) :
  drop_inv w0 (World (db w) (<[p := content]> (disk w)) (shown w)) →
  disk w !! p = None →
  (∀ q, is_Some (disk w0 !! q) → is_Some (disk w !! q)) →
  drop_inv w0 (World (inserted (Py.basename p) p (db w))
                     (<[p := content]> (disk w)) (shown w)).
Proof.
  intros [Hfiles Hrows Hnew Hnf] Hp Hsub. cbn [db disk] in *.
  split; cbn [db disk]; [done| | |done].
  - etrans; [exact Hrows|]. apply inserted_subseteq.
  - intros i e He. unfold inserted in He. cbn [rows] in He.
    apply lookup_insert_Some in He as [[<- <-]|[Hne He]]; [|by apply Hnew].
    right. cbn [filename filepath].
    split.
    { destruct (rows (db w0) !! next_rowid (db w)) as [e0|] eqn:E0; [|done].
      eapply lookup_weaken in E0; [|exact Hrows].
      by rewrite next_rowid_fresh in E0. }
    split; [done|]. split.
    + destruct (disk w0 !! p) as [x|] eqn:E; [|done].
      destruct (Hsub p ltac:(by eexists)) as [y Hy]. congruence.
    + rewrite lookup_insert_eq. by eexists.
Qed.

Lemma add_file_drop_inv (w0 w : world) (f : string) (added_count : Z) :
  drop_inv w0 w →
  ∃ added_count' w', add_file f added_count w = Some (Ok added_count', w')
    ∧ drop_inv w0 w'.
Proof.
  intros Hinv.
  destruct (add_file_step f added_count w)
    as (c' & w' & p & E & Hp & [(Hf & -> & ->)|[(x & Hf & _ & -> & ->)
         |[(x & Hf & _ & Hh & -> & ->)|(x & Hf & _ & Hh & -> & ->)]]]);
    eexists _, _; (split; [exact E|]).
  - by apply drop_inv_shown.
  - pose proof (drop_inv_copy w0 w p f x Hinv Hp Hf) as Hcopy.
    by apply (drop_inv_shown _ _ (shown w ++ [CouldNotAddImage (Py.basename f)
                                                OperationalError])) in Hcopy.
  - by eapply drop_inv_copy.
  - apply drop_inv_insert; [by eapply drop_inv_copy|done|].
    intros q Hq. rewrite (drop_files_kept _ _ Hinv) by done. done.
Qed.

Lemma add_files_drop_inv (w0 w : world) (files : list string) (added_count : Z) :
  drop_inv w0 w →
  ∃ added_count' w', add_files files added_count w = Some (Ok added_count', w')
    ∧ drop_inv w0 w'.
Proof.
  revert w added_count. induction files as [|f rest IH]; intros w c Hinv; simpl.
  - by exists c, w.
  - destruct (add_file_drop_inv w0 w f c Hinv) as (c1 & w1 & E & Hinv1).
    unfold bind. rewrite E. by apply IH.
Qed.

Lemma drop_inv_rows_have_files (w0 w : world) :
  drop_inv w0 w → rows_have_files w0 → rows_have_files w.
Proof.
  intros [Hfiles _ Hnew _] H0 i e He.
  destruct (Hnew i e He) as [He0|(_ & _ & _ & ?)]; [|done].
  specialize (H0 i e He0). by rewrite Hfiles.
Qed.

Lemma accepts_some_dropped_files (us : list url) :
  accepts_some us = true ↔ dropped_files us ≠ [].
Proof.
  induction us as [|u rest IH]; simpl; [done|].
  destruct (isLocalFile u); [|done]. unfold is_supported.
  destruct (bool_decide _); [|done]. done.
Qed.

(** X7: [dragEnterEvent] accepts a drag exactly when the mime data has urls
    and [dropEvent] would find a file to add among them.  A drop that finds
    none shows its one message and touches neither table nor files. *)
Theorem drag_is_accepted_iff_drop_finds_files (md : mimeData) :
  (dragEnterEvent md = true ↔ hasUrls md = true ∧ dropped_files (urls md) ≠ [])
  ∧ (dropped_files (urls md) = [] →
     ∀ w, dropEvent (urls md) w
          = Some (Ok tt, World (db w) (disk w) (shown w ++ [NoImagesDropped]))).
Proof.
  split.
  - unfold dragEnterEvent. rewrite <-accepts_some_dropped_files.
    destruct (hasUrls md); [|by split; [|intros []]].
    destruct (accepts_some (urls md)); [done|]. by split; [|intros []].
  - intros Hnone w. unfold dropEvent. by rewrite Hnone.
Qed.

(** X8: a drop only adds.  Every file that was there has the contents it
    had; every row that was there is unchanged; a row that is new has the
    base name of its path as its file name, and its path names a file that
    the drop created; every file that is new has the contents of another
    file.  If every row named an existing file before, every row does
    afterwards. *)
Theorem dropEvent_only_adds (us : list url) (w : world) :
  ∃ w', dropEvent us w = Some (Ok tt, w')
    ∧ (∀ q, is_Some (disk w !! q) → disk w' !! q = disk w !! q)
    ∧ rows (db w) ⊆ rows (db w')
    ∧ (∀ i e, rows (db w') !! i = Some e →
         rows (db w) !! i = Some e
         ∨ (rows (db w) !! i = None
            ∧ filename e = Py.basename (filepath e)
            ∧ disk w !! filepath e = None
            ∧ is_Some (disk w' !! filepath e)))
    ∧ (∀ q, disk w !! q = None → is_Some (disk w' !! q) →
         ∃ f, is_Some (disk w' !! f) ∧ disk w' !! q = disk w' !! f ∧ f ≠ q)
    ∧ (rows_have_files w → rows_have_files w').
Proof.
  assert (∃ w', dropEvent us w = Some (Ok tt, w') ∧ drop_inv w w') as (w' & E & Hinv).
  { unfold dropEvent. destruct (dropped_files us) as [|f files].
    - eexists. split; [done|]. apply drop_inv_shown, drop_inv_refl.
    - destruct (add_files_drop_inv w w (f :: files) 0 (drop_inv_refl w))
        as (n & w1 & E & Hinv).
      unfold bind. rewrite E. eexists. split; [done|]. by apply drop_inv_shown. }
  exists w'. split; [done|]. pose proof (drop_inv_rows_have_files _ _ Hinv).
  by destruct Hinv.
Qed.

(** Dropping files that exist into a store whose rows all name existing
    files and which has keys for them all: each gets its copy and its row. *)
Lemma add_files_all (files : list string) (added_count : Z) (w : world) :
  table_ok (db w) → rows_have_files w →
  (∀ f, f ∈ files → is_Some (disk w !! f)) →
  next_rowid (db w) + Z.of_nat (length files) <= max_rowid + 1 →
  ∃ w', add_files files added_count w
        = Some (Ok (added_count + Z.of_nat (length files)), w')
    ∧ shown w' = shown w
    ∧ size (rows (db w')) = (size (rows (db w)) + length files)%nat
    ∧ size (disk w') = (size (disk w) + length files)%nat.
Proof.
  revert added_count w. induction files as [|f rest IH]; intros c w Hok Hrf Hsrc Hkeys.
  - exists w. simpl. unfold ret. rewrite Z.add_0_r.
    split; [done|]. split; [done|]. split; lia.
  - destruct (add_file_drop_inv w w f c (drop_inv_refl w)) as (c1' & w1' & E' & Hinv).
    destruct (add_file_step f c w)
      as (c1 & w1 & p & E & Hp & [(Hf & _)|[(x & Hf & Hfull & _)
           |[(x & Hf & _ & Hh & _)|(x & Hf & _ & Hh & Hc & Hw)]]]).
    + destruct (Hsrc f ltac:(left)) as [y Hy]. congruence.
    + destruct Hfull. unfold has_room. cbn [length] in Hkeys. lia.
    + destruct Hh as (i & e & Hi & _ & <-).
      destruct (Hrf i e Hi) as [y Hy]. congruence.
    + rewrite truthy_next_rowid in Hc by done. subst c1.
      rewrite E in E'. injection E' as <- <-.
      assert (table_ok (db w1)) as Hok1.
      { rewrite Hw. by apply inserted_ok. }
      destruct (IH (c + 1) w1 Hok1 (drop_inv_rows_have_files _ _ Hinv Hrf))
        as (w' & E2 & Hs & Hr & Hd).
      { intros g Hg. rewrite (drop_files_kept _ _ Hinv); apply Hsrc; by right. }
      { rewrite Hw. cbn [db]. rewrite next_rowid_inserted. cbn [length] in Hkeys. lia. }
      exists w'. simpl. unfold bind. rewrite E, E2.
      rewrite Hw in Hs, Hr, Hd. cbn [db disk shown] in Hs, Hr, Hd.
      rewrite inserted_size in Hr. rewrite map_size_insert_None in Hd by done.
      split; [f_equal; f_equal; f_equal; lia|]. split; [done|]. split; lia.
Qed.

(** X9: when the table is well formed and has keys left for them all, every
    row names an existing file and every dropped file with a supported
    extension exists, the drop shows no warning and reports all of them as
    added; the table and the directory have grown by that number. *)
Theorem drop_of_existing_files_adds_them_all (us : list url) (w : world) :
  table_ok (db w) →
  next_rowid (db w) + Z.of_nat (length (dropped_files us)) <= max_rowid + 1 →
  rows_have_files w →
  (∀ f, f ∈ dropped_files us → is_Some (disk w !! f)) →
  dropped_files us ≠ [] →
  ∃ w', dropEvent us w = Some (Ok tt, w')
    ∧ shown w' = shown w ++ [ImagesAdded (Z.of_nat (length (dropped_files us)))]
    ∧ size (rows (db w')) = (size (rows (db w)) + length (dropped_files us))%nat
    ∧ size (disk w') = (size (disk w) + length (dropped_files us))%nat.
Proof.
  intros Hok Hkeys Hrf Hsrc Hne. unfold dropEvent.
  destruct (add_files_all (dropped_files us) 0 w Hok Hrf Hsrc Hkeys)
    as (w' & E & Hs & Hr & Hd).
  destruct (dropped_files us) as [|f files] eqn:Efiles; [done|].
  unfold bind. rewrite E. eexists. split; [done|]. cbn [db disk shown show].
  split; [by rewrite Hs|]. done.
Qed.

Lemma album_rows_have_files : rows_have_files album.
Proof.
  apply (bool_decide_unpack
           (map_Forall (λ _ e, is_Some (disk album !! filepath e)) (rows (db album)))).
  by vm_compute.
Qed.

Lemma drop_of_existing_files_adds_them_all_witness :
  let us := [Url true "/home/a/photo.png"; Url false "/home/a/notes.txt";
             Url true "/home/b/photo.png"] in
  table_ok (db album)
  ∧ next_rowid (db album) + Z.of_nat (length (dropped_files us)) <= max_rowid + 1
  ∧ rows_have_files album
  ∧ dropped_files us ≠ []
  ∧ ∃ w', dropEvent us album = Some (Ok tt, w')
      ∧ shown w' = shown album ++ [ImagesAdded (Z.of_nat (length (dropped_files us)))]
      ∧ size (rows (db w')) = (size (rows (db album)) + length (dropped_files us))%nat
      ∧ size (disk w') = (size (disk album) + length (dropped_files us))%nat.
Proof.
  intros us.
  assert (dropped_files us ≠ []) as Hne by (by vm_compute).
  assert (next_rowid (db album) + Z.of_nat (length (dropped_files us)) <= max_rowid + 1)
    as Hkeys by (by vm_compute).
  split; [exact album_ok|]. split; [exact Hkeys|]. split; [exact album_rows_have_files|].
  split; [exact Hne|].
  apply (drop_of_existing_files_adds_them_all us album album_ok Hkeys
           album_rows_have_files); [|exact Hne].
  apply (proj1 (Forall_forall (λ f, is_Some (disk album !! f)) (dropped_files us))).
  apply (bool_decide_unpack _). by vm_compute.
Defined.

(** ** What a compression batch does to rows and files *)

(** What a batch with options [opts] may have done to the table [t0] by the
    time the table is [t]. *)
Record compress_inv (opts : options) (t0 t : table) : Prop := {
  compress_counter_kept : sqlite_sequence t = sqlite_sequence t0;
  compress_ids_kept : dom (rows t) = dom (rows t0);
  compress_rows : ∀ i e', rows t !! i = Some e' →
    ∃ e, rows t0 !! i = Some e
      ∧ filename e' = filename e
      ∧ (filepath e' = filepath e
         ∨ filepath e' = new_filepath opts (filename e))
}.

Lemma compress_inv_refl (opts : options) (t : table) : compress_inv opts t t.
Proof. split; [done|done|]. intros i e He. exists e. split; [done|]. by split; [|left]. Qed.

Lemma compress_inv_step (pil : Pillow) (opts : options) (t0 : table)
    (image_id : Z) (fname fpath : string) (w : world) :
  rows t0 !! image_id = Some (Entry fname fpath) →
  compress_inv opts t0 (db w) →
  compress_inv opts t0 (db (compress_outcome pil opts (image_id, fname, fpath) w)).
Proof.
  intros H0 [Hseq Hdom Hrows].
  destruct (compress_outcome_db pil opts image_id fname fpath w)
    as [->|(e & He & _ & ->)]; [done|].
  split; unfold repointed; cbn [rows sqlite_sequence].
  - done.
  - rewrite <-Hdom. apply dom_insert_lookup_L. by eexists.
  - intros i e' He'. apply lookup_insert_Some in He' as [[<- <-]|[_ He']]; [|by apply Hrows].
    destruct (Hrows _ _ He) as (e0 & He0 & Hfn & _).
    exists e0. split; [done|]. cbn [filename filepath]. split; [done|].
    right. rewrite H0 in He0. injection He0 as <-. done.
Qed.

Lemma compress_inv_foldl (pil : Pillow) (opts : options) (t0 : table)
    (rs : list record) (w : world) :
  (∀ i fn fp, (i, fn, fp) ∈ rs → rows t0 !! i = Some (Entry fn fp)) →
  compress_inv opts t0 (db w) →
  compress_inv opts t0 (db (foldl (λ w r, compress_outcome pil opts r w) w rs)).
Proof.
  revert w. induction rs as [|[[i fn] fp] rs IH]; intros w Hrs Hinv; cbn [foldl]; [done|].
  apply IH.
  - intros j fn' fp' Hj. apply Hrs. by right.
  - apply compress_inv_step; [|done]. apply Hrs. by left.
Qed.

(** One pass leaves every path alone but that of the record and the output
    path. *)
Lemma compress_outcome_disk (pil : Pillow) (opts : options)
    (image_id : Z) (fname fpath q : string) (w : world) :
  q ≠ fpath → q ≠ new_filepath opts fname →
  disk (compress_outcome pil opts (image_id, fname, fpath) w) !! q = disk w !! q.
Proof.
  intros Hq1 Hq2. unfold compress_outcome.
  destruct (disk w !! fpath) as [[im wr|bytes]|]; [|done..].
  destruct (converted pil opts im) as [img|e]; [|done].
  destruct (can_write pil (format opts) (im_mode img));
    [|cbn [disk warn]; by rewrite emptied_disk, decide_False].
  destruct (decide (fpath = new_filepath opts fname)).
  - cbn [disk with_disk]. by rewrite lookup_insert_ne.
  - assert (∀ w1, disk w1 = delete fpath
              (<[new_filepath opts fname := written opts img]> (disk w)) →
            disk w1 !! q = disk w !! q) as Hlook.
    { intros w1 ->. rewrite lookup_delete_ne by done. by rewrite lookup_insert_ne. }
    destruct (rows (db w) !! image_id); [|by apply Hlook].
    destruct (decide _); by apply Hlook.
Qed.

Lemma compress_foldl_disk (pil : Pillow) (opts : options) (rs : list record)
    (q : string) (w : world) :
  (∀ i fn fp, (i, fn, fp) ∈ rs → q ≠ fp ∧ q ≠ new_filepath opts fn) →
  disk (foldl (λ w r, compress_outcome pil opts r w) w rs) !! q = disk w !! q.
Proof.
  revert w. induction rs as [|[[i fn] fp] rs IH]; intros w Hrs; cbn [foldl]; [done|].
  rewrite IH.
  - destruct (Hrs i fn fp) as [H1 H2]; [by left|]. by apply compress_outcome_disk.
  - intros j fn' fp' Hj. apply (Hrs j). by right.
Qed.

Lemma compress_inv_facts (opts : options) (t0 t : table) :
  compress_inv opts t0 t →
  sqlite_sequence t = sqlite_sequence t0
  ∧ dom (rows t) = dom (rows t0)
  ∧ size (rows t) = size (rows t0)
  ∧ ∀ i e', rows t !! i = Some e' →
      ∃ e, rows t0 !! i = Some e
        ∧ filename e' = filename e
        ∧ (filepath e' = filepath e
           ∨ filepath e' = new_filepath opts (filename e)).
Proof.
  intros [Hseq Hdom Hrows]. split; [done|]. split; [done|]. split; [|done].
  by rewrite <-!size_dom, Hdom.
Qed.

(** X10: a compression batch keeps the rows in place: the same ids, the same
    file names, the same counter.  The path of a row afterwards is the path it
    had or the output path built from its file name. *)
Theorem compress_all_keeps_ids_and_names (pil : Pillow) (opts : options) (w : world) :
  ∃ w', compress_all_images pil opts w = Some (Ok tt, w')
    ∧ sqlite_sequence (db w') = sqlite_sequence (db w)
    ∧ dom (rows (db w')) = dom (rows (db w))
    ∧ size (rows (db w')) = size (rows (db w))
    ∧ ∀ i e', rows (db w') !! i = Some e' →
        ∃ e, rows (db w) !! i = Some e
          ∧ filename e' = filename e
          ∧ (filepath e' = filepath e
             ∨ filepath e' = new_filepath opts (filename e)).
Proof.
  assert (compress_inv opts (db w)
            (db (foldl (λ w r, compress_outcome pil opts r w) w (select_all_desc (db w)))))
    as Hinv.
  { apply compress_inv_foldl; [|apply compress_inv_refl].
    intros i fn fp. by rewrite elem_of_select_all_desc. }
  rewrite compress_all_images_run. eexists. split; [done|].
  apply compress_inv_facts.
  destruct (select_all_desc (db w)); [apply compress_inv_refl|exact Hinv].
Qed.

(** X11: a compression batch touches no file other than the files the rows
    name at the start and the output paths built from their file names. *)
Theorem compress_all_touches_only_row_files (pil : Pillow) (opts : options)
    (w : world) (q : string) :
  (∀ i e, rows (db w) !! i = Some e →
     q ≠ filepath e ∧ q ≠ new_filepath opts (filename e)) →
  ∃ w', compress_all_images pil opts w = Some (Ok tt, w')
    ∧ disk w' !! q = disk w !! q.
Proof.
  intros Hq. eexists. split; [apply compress_all_images_run|].
  destruct (select_all_desc (db w)) as [|r rs] eqn:E; [done|].
  cbn [disk]. rewrite <-E. apply compress_foldl_disk.
  intros i fn fp Hin. apply elem_of_select_all_desc in Hin.
  apply (Hq i _ Hin).
Qed.

Lemma compress_all_touches_only_row_files_witness :
  (∀ i e, rows (db album) !! i = Some e →
     "/home/a/photo.png" ≠ filepath e
     ∧ "/home/a/photo.png" ≠ new_filepath (Options 80 8 JPEG) (filename e))
  ∧ ∃ w', compress_all_images stock_pillow (Options 80 8 JPEG) album = Some (Ok tt, w')
      ∧ disk w' !! "/home/a/photo.png" = disk album !! "/home/a/photo.png".
Proof.
  assert (∀ i e, rows (db album) !! i = Some e →
     "/home/a/photo.png" ≠ filepath e
     ∧ "/home/a/photo.png" ≠ new_filepath (Options 80 8 JPEG) (filename e)) as Hq.
  { apply (bool_decide_unpack
      (map_Forall (λ _ e, "/home/a/photo.png" ≠ filepath e
         ∧ "/home/a/photo.png" ≠ new_filepath (Options 80 8 JPEG) (filename e))
         (rows (db album)))).
    by vm_compute. }
  split; [exact Hq|].
  exact (compress_all_touches_only_row_files stock_pillow (Options 80 8 JPEG)
           album "/home/a/photo.png" Hq).
Defined.

Lemma join_images_dir (b : string) :
  Py.join IMAGES_DIR b
  = if Py.startswith "/" b then b else "stored_images/" +:+ b.
Proof. unfold Py.join. by destruct (Py.startswith "/" b). Qed.

Lemma join_images_dir_inj (b1 b2 : string) :
  Py.join IMAGES_DIR b1 = Py.join IMAGES_DIR b2 → b1 = b2.
Proof.
  rewrite !join_images_dir.
  destruct (Py.startswith "/" b1) eqn:E1, (Py.startswith "/" b2) eqn:E2; intros H.
  - done.
  - rewrite H in E1. discriminate E1.
  - rewrite <-H in E2. discriminate E2.
  - by apply (inj (String.append "stored_images/")) in H.
Qed.

(** X12: two rows get the same output path exactly when their file names
    have the same base, and the output path of a file name tells the format:
    different formats never write to the same path. *)
Theorem output_paths_collide_iff_same_base (opts opts' : options) (f1 f2 : string) :
  (new_filepath opts f1 = new_filepath opts f2
   ↔ (Py.splitext f1).1 = (Py.splitext f2).1)
  ∧ (new_filepath opts f1 = new_filepath opts' f1 → format opts = format opts').
Proof.
  split; [split|].
  - intros H. apply join_images_dir_inj in H. unfold new_filename in H.
    rewrite !string_app_assoc in H. by apply string_app_inj_r, string_app_inj_r in H.
  - intros H. unfold new_filepath, new_filename. by rewrite H.
  - intros H. apply join_images_dir_inj in H. unfold new_filename in H.
    apply (inj (String.append _)), (inj (String.append _)) in H.
    by destruct (format opts), (format opts').
Qed.

(** X13: "Convert bit depth" settles after one step: with a Pillow that can
    convert each mode to itself, converting the converted picture again under
    the same options gives the same picture. *)
Theorem convert_bit_depth_idempotent (pil : Pillow) (opts : options)
    (img img' : image) (w : world) :
  (∀ m, can_convert pil m m = true) →
  convert_bit_depth pil opts img w = Some (Ok img', w) →
  convert_bit_depth pil opts img' w = Some (Ok img', w).
Proof.
  intros Hrefl. rewrite !convert_bit_depth_run. intros H. injection H as H.
  f_equal. f_equal. destruct img as [m px].
  unfold converted, requested_mode in *. cbn [im_mode im_pixels] in H.
  assert (∀ to, (if can_convert pil m to then Ok (Image to px)
                 else Raise (ValueError m to)) = Ok img' →
            img' = Image to px) as Hto.
  { intros to Hc. destruct (can_convert pil m to); [by injection Hc|done]. }
  destruct (bool_decide (bit_depth opts = 1)).
  { apply Hto in H as ->. simpl. by rewrite Hrefl. }
  destruct (bool_decide (bit_depth opts = 8)).
  { destruct (bool_decide (m ≠ M_RGB) && bool_decide (m ≠ M_RGBA));
      apply Hto in H as ->; cbn [im_mode im_pixels].
    - change (bool_decide (M_L ≠ M_RGB) && bool_decide (M_L ≠ M_RGBA)) with true.
      simpl. by rewrite Hrefl.
    - change (bool_decide (M_RGB ≠ M_RGB) && bool_decide (M_RGB ≠ M_RGBA)) with false.
      simpl. by rewrite Hrefl. }
  destruct (bool_decide (bit_depth opts = 16)); [|by injection H as <-].
  destruct (bool_decide (m ∈ [M_I16; M_I16B])) eqn:E.
  - injection H as <-. cbn [im_mode]. by rewrite E.
  - apply Hto in H as ->. cbn [im_mode].
    by change (bool_decide (M_I16 ∈ [M_I16; M_I16B])) with true.
Qed.

Lemma stock_pillow_keeps_modes (m : mode) : can_convert stock_pillow m m = true.
Proof. by destruct m. Qed.

Lemma convert_bit_depth_idempotent_witness :
  (∀ m, can_convert stock_pillow m m = true)
  ∧ convert_bit_depth stock_pillow (Options 75 8 JPEG) (Image M_CMYK "poster") album
    = Some (Ok (Image M_L "poster"), album)
  ∧ convert_bit_depth stock_pillow (Options 75 8 JPEG) (Image M_L "poster") album
    = Some (Ok (Image M_L "poster"), album).
Proof.
  assert (convert_bit_depth stock_pillow (Options 75 8 JPEG) (Image M_CMYK "poster") album
          = Some (Ok (Image M_L "poster"), album)) as H by done.
  split; [exact stock_pillow_keeps_modes|]. split; [exact H|].
  exact (convert_bit_depth_idempotent stock_pillow (Options 75 8 JPEG)
           (Image M_CMYK "poster") (Image M_L "poster") album
           stock_pillow_keeps_modes H).
Defined.

Lemma snoc_not_self {A} (l : list A) (x : A) : l ++ [x] ≠ l.
Proof.
  intros H. apply (f_equal length) in H. rewrite length_app in H. simpl in H. lia.
Qed.

(** X14: silence means success.  When the pass over a row shows no message,
    the picture was decoded, converted and encoded: the encoded picture is
    at the output path, the row has the output path under its old file name,
    and the original file, if it was elsewhere, is gone. *)
Theorem silent_pass_means_compressed (pil : Pillow) (opts : options)
    (image_id : Z) (e : entry) (w w' : world) :
  rows (db w) !! image_id = Some e →
  compress_image pil opts (image_id, filename e, filepath e) w = Some (Ok tt, w') →
  shown w' = shown w →
  ∃ im wr img,
    disk w !! filepath e = Some (Picture im wr)
    ∧ convert_bit_depth pil opts im w = Some (Ok img, w)
    ∧ disk w' !! new_filepath opts (filename e)
      = Some (Picture img (Some (format opts, save_kwargs opts)))
    ∧ rows (db w') !! image_id
      = Some (Entry (filename e) (new_filepath opts (filename e)))
    ∧ (filepath e ≠ new_filepath opts (filename e) → disk w' !! filepath e = None).
Proof.
  intros He Hrun Hsilent. rewrite compress_image_run in Hrun. injection Hrun as <-.
  unfold compress_outcome in *.
  assert (∀ x, shown (warn (filename e) x w) ≠ shown w) as Hwarn.
  { intros x. apply snoc_not_self. }
  destruct (disk w !! filepath e) as [[im wr|bytes]|] eqn:Hf;
    [|by destruct (Hwarn _ Hsilent)..].
  exists im, wr. rewrite convert_bit_depth_run.
  destruct (converted pil opts im) as [img|x]; [|by destruct (Hwarn _ Hsilent)].
  exists img. split; [done|]. split; [done|].
  destruct (can_write pil (format opts) (im_mode img)).
  2:{ cbn [shown warn] in Hsilent. rewrite emptied_shown in Hsilent.
      by apply snoc_not_self in Hsilent. }
  destruct (decide (filepath e = new_filepath opts (filename e))) as [Heq|Hne].
  - cbn [db disk with_disk]. split; [apply lookup_insert_eq|].
    split; [|done]. rewrite He, <-Heq. by destruct e.
  - rewrite He in *.
    destruct (decide (path_held_by_other (Some image_id) _ (db w))).
    + apply snoc_not_self in Hsilent. done.
    + cbn [db disk with_db with_disk rows repointed].
      split; [rewrite lookup_delete_ne by done; apply lookup_insert_eq|].
      split; [apply lookup_insert_eq|]. intros _. apply lookup_delete_eq.
Qed.

Lemma silent_pass_means_compressed_witness :
  let e := Entry "photo.png" "stored_images/photo.png" in
  let opts := Options 80 8 JPEG in
  let w' := state_after (compress_image stock_pillow opts (1, "photo.png", "stored_images/photo.png")) album in
  rows (db album) !! 1 = Some e
  ∧ shown w' = shown album
  ∧ ∃ im wr img,
      disk album !! filepath e = Some (Picture im wr)
      ∧ convert_bit_depth stock_pillow opts im album = Some (Ok img, album)
      ∧ disk w' !! new_filepath opts (filename e)
        = Some (Picture img (Some (format opts, save_kwargs opts)))
      ∧ rows (db w') !! 1 = Some (Entry (filename e) (new_filepath opts (filename e)))
      ∧ (filepath e ≠ new_filepath opts (filename e) → disk w' !! filepath e = None).
Proof.
  intros e opts w'.
  assert (rows (db album) !! 1 = Some e) as H1 by (by vm_compute).
  assert (compress_image stock_pillow opts (1, filename e, filepath e) album
          = Some (Ok tt, w')) as H2 by (by vm_compute).
  assert (shown w' = shown album) as H3 by (by vm_compute).
  split; [exact H1|]. split; [exact H3|].
  exact (silent_pass_means_compressed stock_pillow opts 1 e album w' H1 H2 H3).
Defined.

(** ** The table view *)

Lemma list_getitem_in_range {A} (l : list A) (i : Z) :
  (0 ≤ i)%Z → list_getitem l i = l !! Z.to_nat i.
Proof. intros Hi. unfold list_getitem. by rewrite (proj2 (Z.leb_le 0 i)). Qed.

Lemma newest_first_lookup (l : list record) (r1 r2 : nat) (a b : record) :
  newest_first l → (r1 < r2)%nat → l !! r1 = Some a → l !! r2 = Some b →
  a.1.1 > b.1.1.
Proof.
  intros Hs. revert r1 r2. induction Hs as [|x l Hs IH Hx]; intros r1 r2 Hlt H1 H2.
  - by rewrite lookup_nil in H1.
  - destruct r2 as [|r2]; [lia|]. destruct r1 as [|r1]; simpl in *.
    + injection H1 as <-. rewrite Forall_forall in Hx. apply Hx.
      by eapply list_elem_of_lookup_2.
    + apply (IH r1 r2); [lia|done..].
Qed.

(** X15: after [refresh] the model shows the table: as many rows as the
    table has, and at each row below [rowCount] the id, file name and path of
    one row of the table in columns 0, 1 and 2, never an [IndexError]; going
    down the view the ids get smaller. *)
Theorem refreshed_view_shows_the_table (w : world) :
  ∃ images, refresh w = Some (Ok images, w)
    ∧ rowCount images = Z.of_nat (size (rows (db w)))
    ∧ (∀ r, (0 ≤ r < rowCount images)%Z →
         ∃ i e, rows (db w) !! i = Some e
           ∧ data images (ModelIndex r 0 true) DisplayRole = Some (IntValue i)
           ∧ data images (ModelIndex r 1 true) DisplayRole
             = Some (StringValue (filename e))
           ∧ data images (ModelIndex r 2 true) DisplayRole
             = Some (StringValue (filepath e)))
    ∧ (∀ r1 r2 i1 i2, (0 ≤ r1)%Z → r1 < r2 →
         data images (ModelIndex r1 0 true) DisplayRole = Some (IntValue i1) →
         data images (ModelIndex r2 0 true) DisplayRole = Some (IntValue i2) →
         i1 > i2).
Proof.
  exists (select_all_desc (db w)). split; [done|].
  split; [unfold rowCount; by rewrite select_all_desc_length|]. split.
  - intros r Hr. unfold rowCount in Hr.
    destruct (lookup_lt_is_Some_2 (select_all_desc (db w)) (Z.to_nat r))
      as [[[i fn] fp] Hl]; [lia|].
    exists i, (Entry fn fp). split.
    + apply elem_of_select_all_desc. by eapply list_elem_of_lookup_2.
    + unfold data, isValid. cbn [row column has_model].
      rewrite (proj2 (Z.leb_le 0 r)) by lia.
      rewrite list_getitem_in_range by lia. by rewrite Hl.
  - intros r1 r2 i1 i2 H1 H12. unfold data, isValid. cbn [row column has_model].
    rewrite !(proj2 (Z.leb_le 0 _)) by lia. cbn [andb negb Z.eqb].
    rewrite !list_getitem_in_range by lia.
    destruct (select_all_desc (db w) !! Z.to_nat r1) as [a|] eqn:Ea; [|done].
    destruct (select_all_desc (db w) !! Z.to_nat r2) as [b|] eqn:Eb; [|done].
    intros [= <-] [= <-].
    eapply (newest_first_lookup _ (Z.to_nat r1) (Z.to_nat r2));
      [apply select_all_desc_newest_first|lia|done..].
Qed.

(** X16: [data] on any list: an invalid index gives an invalid [QVariant];
    so does, for a row that is there, every role but [DisplayRole] and every
    column from 3 on.  The call raises [IndexError] exactly when the index is
    valid and its row is [rowCount] or more. *)
Theorem data_is_defined_below_rowCount (images : list record) (index : QModelIndex)
    (role : ItemDataRole) :
  (isValid index = false → data images index role = Some Invalid)
  ∧ (data images index role = None
     ↔ isValid index = true ∧ (rowCount images ≤ row index)%Z)
  ∧ (isValid index = true → row index < rowCount images →
     (∀ n, data images index (OtherRole n) = Some Invalid)
     ∧ ((3 ≤ column index)%Z → data images index DisplayRole = Some Invalid)
     ∧ (column index < 3 →
        ∃ v, data images index DisplayRole = Some v ∧ v ≠ Invalid)).
Proof.
  unfold data, rowCount. destruct (isValid index) eqn:Hv; cbn [negb].
  2:{ split; [done|]. split; [|done]. split; [done|]. by intros []. }
  apply andb_true_iff in Hv as [Hv _]. apply andb_true_iff in Hv as [Hr Hc].
  apply Z.leb_le in Hr, Hc.
  rewrite list_getitem_in_range by done.
  split; [done|]. split.
  - destruct (images !! Z.to_nat (row index)) as [image|] eqn:E.
    + apply lookup_lt_Some in E. split; [|lia].
      destruct role; repeat (destruct (Z.eqb _ _)); done.
    + apply lookup_ge_None in E. split; [|done]. intros _. split; [done|lia].
  - intros _ Hlt.
    destruct (lookup_lt_is_Some_2 images (Z.to_nat (row index))) as [image ->]; [lia|].
    split; [done|]. split.
    + intros H3. rewrite !(proj2 (Z.eqb_neq _ _)) by lia. done.
    + intros H3.
      assert (column index = 0 ∨ column index = 1 ∨ column index = 2)
        as [->|[->| ->]] by lia; by eexists.
Qed.

(** X17: the three columns have their titles: for every section below
    [columnCount] the horizontal header under [DisplayRole] is ["ID"],
    ["Filename"] or ["File path"]; other roles and the vertical header are
    left to the base class; sections from [columnCount] on, and below -3,
    raise [IndexError]. *)
Theorem headerData_titles (section : Z) (orientation : Orientation)
    (role : ItemDataRole) (inherited : QVariant) :
  ((0 ≤ section < columnCount)%Z →
   ∃ title, headerData section Horizontal DisplayRole inherited
            = Some (StringValue title)
     ∧ ["ID"; "Filename"; "File path"] !! Z.to_nat section = Some title)
  ∧ (headerData section Horizontal DisplayRole inherited = None
     ↔ (columnCount ≤ section)%Z ∨ section < -3)
  ∧ (role ≠ DisplayRole ∨ orientation = Vertical →
     headerData section orientation role inherited = Some inherited).
Proof.
  unfold columnCount, headerData. split; [|split].
  - intros H. assert (section = 0 ∨ section = 1 ∨ section = 2) as [->|[->| ->]] by lia;
      by eexists.
  - unfold list_getitem. cbn [length].
    destruct (Z.leb 0 section) eqn:E1.
    + apply Z.leb_le in E1.
      destruct (decide (section < 3)) as [H3|H3].
      * assert (section = 0 ∨ section = 1 ∨ section = 2) as [->|[->| ->]] by lia;
          (split; [done|lia]).
      * rewrite lookup_ge_None_2 by (simpl; lia). split; [lia|done].
    + apply Z.leb_gt in E1.
      destruct (Z.leb 0 (_ + section)) eqn:E2.
      * apply Z.leb_le in E2.
        assert (section = -1 ∨ section = -2 ∨ section = -3) as [->|[->| ->]] by lia;
          (split; [done|lia]).
      * apply Z.leb_gt in E2. split; [lia|done].
  - intros [H| ->]; [by destruct role|by destruct role].
Qed.

(** X18: the view does not go stale.  [dropEvent] and [compress_all_images]
    refresh the model after changing the table, and return early only when
    they have changed nothing: if the list shown was the listing of the table
    when the handler was called, the list shown when it returns is the
    listing of the table it leaves. *)
Theorem handlers_keep_the_view_in_sync (pil : Pillow) (opts : options)
    (us : list url) (images : list record) (w : world) :
  images = select_all_desc (db w) →
  (∃ images' w', dropEvent_view us images w = Some (Ok images', w')
     ∧ dropEvent us w = Some (Ok tt, w')
     ∧ images' = select_all_desc (db w'))
  ∧ (∃ images' w', compress_all_images_view pil opts images w = Some (Ok images', w')
       ∧ compress_all_images pil opts w = Some (Ok tt, w')
       ∧ images' = select_all_desc (db w')).
Proof.
  intros Hsync. split.
  - unfold dropEvent_view, dropEvent.
    destruct (dropped_files us) as [|f files].
    + eexists _, _. split; [done|]. split; [done|]. done.
    + destruct (add_files_total (f :: files) 0 w) as (n & w1 & E).
      unfold bind, refresh, get_all_images. rewrite E.
      eexists _, _. split; [done|]. split; [done|]. done.
  - rewrite compress_all_images_run.
    unfold compress_all_images_view, bind at 1, get_all_images.
    destruct (select_all_desc (db w)) as [|r rs] eqn:E.
    + eexists _, _. split; [done|]. split; [done|]. cbn [db]. congruence.
    + cbn [length Nat.eqb]. unfold bind at 1. rewrite for_each_compress_run.
      eexists _, _. split; [done|]. split; [done|]. done.
Qed.

Lemma handlers_keep_the_view_in_sync_witness :
  let us := [Url true "stored_images/photo.png"; Url true "/nowhere/x.bmp"] in
  let opts := Options 30 1 WEBP in
  (∃ images' w', dropEvent_view us (select_all_desc (db pair)) pair = Some (Ok images', w')
     ∧ dropEvent us pair = Some (Ok tt, w')
     ∧ images' = select_all_desc (db w'))
  ∧ (∃ images' w',
       compress_all_images_view stock_pillow opts (select_all_desc (db pair)) pair
       = Some (Ok images', w')
       ∧ compress_all_images stock_pillow opts pair = Some (Ok tt, w')
       ∧ images' = select_all_desc (db w')).
Proof.
  intros us opts.
  exact (handlers_keep_the_view_in_sync stock_pillow opts us
           (select_all_desc (db pair)) pair eq_refl).
Defined.

(** ** Batches that show no warning *)

Lemma compress_outcome_shown (pil : Pillow) (opts : options) (r : record) (w : world) :
  ∃ l, shown (compress_outcome pil opts r w) = shown w ++ l.
Proof.
  destruct r as [[i fn] fp]. unfold compress_outcome.
  assert (∀ x, ∃ l, shown (warn fn x w) = shown w ++ l) as Hwarn by (by eexists).
  destruct (disk w !! fp) as [[im wr|bytes]|]; [|done..].
  destruct (converted pil opts im) as [img|x]; [|done].
  destruct (can_write pil (format opts) (im_mode img));
    [|cbn [shown warn]; rewrite emptied_shown; by eexists].
  destruct (decide (fp = new_filepath opts fn)); [exists []; by rewrite app_nil_r|].
  destruct (rows (db w) !! i); [|exists []; by rewrite app_nil_r].
  destruct (decide _); [by eexists|exists []; by rewrite app_nil_r].
Qed.

Lemma compress_foldl_shown (pil : Pillow) (opts : options) (rs : list record) (w : world) :
  ∃ l, shown (foldl (λ w r, compress_outcome pil opts r w) w rs) = shown w ++ l.
Proof.
  revert w. induction rs as [|r rs IH]; intros w; cbn [foldl].
  - exists []. by rewrite app_nil_r.
  - destruct (IH (compress_outcome pil opts r w)) as [l1 ->].
    destruct (compress_outcome_shown pil opts r w) as [l0 ->].
    exists (l0 ++ l1). by rewrite app_assoc.
Qed.

(** A pass over the row it was listed from that shows nothing has decoded,
    converted and encoded. *)
Lemma compress_outcome_silent (pil : Pillow) (opts : options)
    (i : Z) (fn fp : string) (w : world) :
  rows (db w) !! i = Some (Entry fn fp) →
  shown (compress_outcome pil opts (i, fn, fp) w) = shown w →
  ∃ img,
    (fp = new_filepath opts fn
     ∧ db (compress_outcome pil opts (i, fn, fp) w) = db w
     ∧ disk (compress_outcome pil opts (i, fn, fp) w)
       = <[new_filepath opts fn := written opts img]> (disk w))
    ∨ (fp ≠ new_filepath opts fn
       ∧ ¬ path_held_by_other (Some i) (new_filepath opts fn) (db w)
       ∧ db (compress_outcome pil opts (i, fn, fp) w)
         = repointed i (Entry fn fp) (new_filepath opts fn) (db w)
       ∧ disk (compress_outcome pil opts (i, fn, fp) w)
         = delete fp (<[new_filepath opts fn := written opts img]> (disk w))).
Proof.
  intros He. unfold compress_outcome.
  assert (∀ x, shown (warn fn x w) ≠ shown w) as Hwarn.
  { intros x. apply snoc_not_self. }
  destruct (disk w !! fp) as [[im wr|bytes]|]; [|by intros ?%Hwarn..].
  destruct (converted pil opts im) as [img|x]; [|by intros ?%Hwarn].
  destruct (can_write pil (format opts) (im_mode img)).
  2:{ cbn [shown warn]. rewrite emptied_shown. by intros ?%snoc_not_self. }
  intros Hs. exists img.
  destruct (decide (fp = new_filepath opts fn)); [by left|]. right.
  split; [done|]. rewrite He in *.
  revert Hs. destruct (decide _); [by intros ?%snoc_not_self|]. by intros _.
Qed.

(** The records still to be compressed are rows as listed; every other row
    is compressed. *)
Definition quiet_inv (opts : options) (todo : list record) (w : world) : Prop :=
  unique_paths (db w)
  ∧ (∀ j fn fp, (j, fn, fp) ∈ todo → rows (db w) !! j = Some (Entry fn fp))
  ∧ ∀ j e, rows (db w) !! j = Some e →
      j ∈ (λ r : record, r.1.1) <$> todo ∨ row_is_compressed opts w e.

Lemma quiet_step (pil : Pillow) (opts : options) (i : Z) (fn fp : string)
    (todo : list record) (w : world) :
  i ∉ (λ r : record, r.1.1) <$> todo →
  quiet_inv opts ((i, fn, fp) :: todo) w →
  shown (compress_outcome pil opts (i, fn, fp) w) = shown w →
  quiet_inv opts todo (compress_outcome pil opts (i, fn, fp) w).
Proof.
  intros Hi (Hu & Htodo & Hrows) Hs.
  assert (rows (db w) !! i = Some (Entry fn fp)) as He by (apply Htodo; by left).
  destruct (compress_outcome_silent pil opts i fn fp w He Hs)
    as (img & [(Hsame & Hdb & Hd)|(Hne & Hfree & Hdb & Hd)]).
  - (* written over the file the row has *)
    split; [by rewrite Hdb|]. rewrite Hdb. split.
    + intros j fn' fp' Hj. apply Htodo. by right.
    + intros j e Hj. destruct (decide (j = i)) as [->|Hji].
      * right. rewrite He in Hj. injection Hj as <-.
        split; [done|]. exists img. rewrite Hd. cbn [filepath]. rewrite Hsame.
        apply lookup_insert_eq.
      * destruct (Hrows j e Hj) as [Hin|[Hp [img' Hf]]].
        -- left. rewrite fmap_cons in Hin. by apply elem_of_cons in Hin as [?|?].
        -- right. split; [done|]. exists img'. rewrite Hd.
           rewrite lookup_insert_ne; [done|].
           intros Heq. apply Hji. apply (Hu j i e (Entry fn fp)); [done..|].
           cbn [filepath]. congruence.
  - (* written to the output path, the row moved there *)
    split; [rewrite Hdb; by apply unique_paths_insert|].
    rewrite Hdb. unfold repointed. cbn [rows filename]. split.
    + intros j fn' fp' Hj. rewrite lookup_insert_ne; [apply Htodo; by right|].
      intros <-. apply Hi. apply list_elem_of_fmap. by exists (i, fn', fp').
    + intros j e Hj. apply lookup_insert_Some in Hj as [[<- <-]|[Hji Hj]].
      * right. split; [done|]. exists img. rewrite Hd. cbn [filepath].
        rewrite lookup_delete_ne by done. apply lookup_insert_eq.
      * destruct (Hrows j e Hj) as [Hin|[Hp [img' Hf]]].
        -- left. rewrite fmap_cons in Hin.
           apply elem_of_cons in Hin as [?|?]; [by destruct Hji|done].
        -- right. split; [done|]. exists img'. rewrite Hd.
           rewrite lookup_delete_ne, lookup_insert_ne; [done| |].
           ++ intros Heq. apply Hfree. exists j, e.
              split; [done|]. split; [congruence|done].
           ++ intros Heq. apply Hji. symmetry.
              apply (Hu j i e (Entry fn fp)); [done..|]. by cbn [filepath].
Qed.

Lemma quiet_foldl (pil : Pillow) (opts : options) (rs : list record) (w : world) :
  NoDup ((λ r : record, r.1.1) <$> rs) →
  quiet_inv opts rs w →
  shown (foldl (λ w r, compress_outcome pil opts r w) w rs) = shown w →
  quiet_inv opts [] (foldl (λ w r, compress_outcome pil opts r w) w rs).
Proof.
  revert w. induction rs as [|[[i fn] fp] rs IH]; intros w Hnd Hinv Hs; cbn [foldl] in *.
  { done. }
  rewrite fmap_cons in Hnd. apply NoDup_cons in Hnd as [Hi Hnd]. cbn [fst] in Hi.
  destruct (compress_outcome_shown pil opts (i, fn, fp) w) as [l0 H0].
  destruct (compress_foldl_shown pil opts rs (compress_outcome pil opts (i, fn, fp) w))
    as [l1 H1].
  assert (l0 = [] ∧ l1 = []) as [-> ->].
  { rewrite H1, H0, <-app_assoc in Hs.
    rewrite <-(app_nil_r (shown w)) in Hs at 2.
    apply app_inv_head in Hs. by apply app_eq_nil in Hs. }
  rewrite app_nil_r in H0, H1.
  apply IH; [done| |congruence].
  by apply quiet_step.
Qed.

Lemma select_all_desc_ids_NoDup (t : table) :
  NoDup ((λ r : record, r.1.1) <$> select_all_desc t).
Proof.
  pose proof (select_all_desc_newest_first t) as Hs. unfold newest_first in Hs.
  induction Hs as [|x l Hs IH Hx]; [constructor|].
  rewrite fmap_cons. constructor; [|done].
  intros Hin. apply list_elem_of_fmap in Hin as (y & Hxy & Hy).
  rewrite Forall_forall in Hx. specialize (Hx y Hy). lia.
Qed.

(** X19: a batch that shows no warning has compressed everything.  From a
    table without duplicate paths, if [compress_all_images] shows only its
    closing message, then afterwards every row has the output path of its
    file name, and the file at that path is a picture encoded with the
    options of the batch. *)
Theorem quiet_batch_leaves_every_row_compressed (pil : Pillow) (opts : options)
    (w w' : world) (n : nat) :
  unique_paths (db w) →
  compress_all_images pil opts w = Some (Ok tt, w') →
  shown w' = shown w ++ [CompressionComplete n] →
  ∀ i e, rows (db w') !! i = Some e → row_is_compressed opts w' e.
Proof.
  intros Hu Hrun Hs. rewrite compress_all_images_run in Hrun. injection Hrun as <-.
  destruct (select_all_desc (db w)) as [|r rs] eqn:E.
  { cbn [shown] in Hs. apply app_inv_head in Hs. done. }
  rewrite <-E in *. clear E r rs.
  set (w1 := foldl (λ w r, compress_outcome pil opts r w) w (select_all_desc (db w))) in *.
  cbn [shown db disk] in *.
  destruct (compress_foldl_shown pil opts (select_all_desc (db w)) w) as [l Hl].
  fold w1 in Hl.
  assert (shown w1 = shown w) as Hquiet.
  { rewrite Hl, <-app_assoc in Hs. apply app_inv_head in Hs.
    destruct l as [|m [|m' l]]; [by rewrite Hl, app_nil_r|done..]. }
  assert (quiet_inv opts [] w1) as (_ & _ & Hrows).
  { apply quiet_foldl; [apply select_all_desc_ids_NoDup| |done].
    split; [done|]. split.
    - intros j fn fp. by rewrite elem_of_select_all_desc.
    - intros j [fn fp] Hj. left. apply list_elem_of_fmap.
      exists (j, fn, fp). split; [done|]. by apply elem_of_select_all_desc. }
  intros i e He. destruct (Hrows i e He) as [Hin|[Hp [img Hf]]].
  - rewrite fmap_nil in Hin. by apply elem_of_nil in Hin.
  - split; [done|]. by exists img.
Qed.

Lemma quiet_batch_leaves_every_row_compressed_witness :
  let opts := Options 80 8 JPEG in
  let w' := state_after (compress_all_images stock_pillow opts) album in
  unique_paths (db album)
  ∧ shown w' = shown album ++ [CompressionComplete 1]
  ∧ ∀ i e, rows (db w') !! i = Some e → row_is_compressed opts w' e.
Proof.
  intros opts w'.
  assert (compress_all_images stock_pillow opts album = Some (Ok tt, w')) as H1
    by (by vm_compute).
  assert (shown w' = shown album ++ [CompressionComplete 1]) as H2 by (by vm_compute).
  split; [apply album_ok|]. split; [exact H2|].
  exact (quiet_batch_leaves_every_row_compressed stock_pillow opts album w' 1
           (proj1 album_ok) H1 H2).
Defined.

(** ** Messages *)

Lemma dropped_files_app (us1 us2 : list url) :
  dropped_files (us1 ++ us2) = dropped_files us1 ++ dropped_files us2.
Proof.
  induction us1 as [|u us1 IH]; [done|]. simpl.
  destruct (isLocalFile u); [|done]. destruct (is_supported _); [|done].
  by rewrite IH.
Qed.

(** X20: a url that is not a local file, or whose extension is not one of the
    supported ones whatever its case, has no effect on a drop, not even a
    message: the drop does what it would do without it. *)
Theorem unsupported_urls_are_ignored (us1 us2 : list url) (u : url) (w : world) :
  isLocalFile u = false ∨ Py.lower (Py.splitext (toLocalFile u)).2 ∉ supported_extensions →
  dropEvent (us1 ++ u :: us2) w = dropEvent (us1 ++ us2) w.
Proof.
  intros Hu. unfold dropEvent.
  assert (dropped_files (us1 ++ u :: us2) = dropped_files (us1 ++ us2)) as ->; [|done].
  rewrite !dropped_files_app. f_equal. simpl.
  destruct Hu as [->|Hu]; [done|]. destruct (isLocalFile u); [|done].
  unfold is_supported. by rewrite bool_decide_eq_false_2.
Qed.

Lemma unsupported_urls_are_ignored_witness :
  (Py.lower (Py.splitext (toLocalFile (Url true "/home/a/notes.TXT"))).2
     ∉ supported_extensions)
  ∧ dropEvent ([Url true "/home/a/photo.png"]
                 ++ (Url true "/home/a/notes.TXT" :: [Url true "/home/b/photo.png"])) album
    = dropEvent ([Url true "/home/a/photo.png"] ++ [Url true "/home/b/photo.png"]) album.
Proof.
  assert (Py.lower (Py.splitext (toLocalFile (Url true "/home/a/notes.TXT"))).2
            ∉ supported_extensions) as H.
  { apply (proj1 (bool_decide_eq_false _)). by vm_compute. }
  split; [exact H|].
  exact (unsupported_urls_are_ignored [Url true "/home/a/photo.png"]
           [Url true "/home/b/photo.png"] (Url true "/home/a/notes.TXT") album
           (or_intror H)).
Defined.

Lemma warnings_of_cons {A} (warning : A → exn → message) (x : A) (items : list A)
    (o : option exn) (errors : list (option exn)) :
  warnings_of warning (x :: items) (o :: errors)
  = match o with Some e => [warning x e] | None => [] end
    ++ warnings_of warning items errors.
Proof. unfold warnings_of. simpl. by destruct o. Qed.

Lemma compress_outcome_warning (pil : Pillow) (opts : options) (r : record) (w : world) :
  ∃ o : option exn,
    shown (compress_outcome pil opts r w)
    = shown w ++ match o with Some e => [CompressionError r.1.2 e] | None => [] end.
Proof.
  destruct r as [[i fn] fp]. unfold compress_outcome. cbn [fst snd].
  assert (∀ x, ∃ o : option exn, shown (warn fn x w)
            = shown w ++ match o with Some e => [CompressionError fn e] | None => [] end)
    as Hwarn by (intros x; by exists (Some x)).
  assert (∀ w1, shown w1 = shown w → ∃ o : option exn, shown w1
            = shown w ++ match o with Some e => [CompressionError fn e] | None => [] end)
    as Hsame by (intros w1 ->; exists None; by rewrite app_nil_r).
  destruct (disk w !! fp) as [[im wr|bytes]|]; [|done..].
  destruct (converted pil opts im) as [img|x]; [|done].
  destruct (can_write pil (format opts) (im_mode img)).
  2:{ cbn [shown warn]. rewrite emptied_shown.
      by exists (Some (OSError (format opts) (im_mode img))). }
  destruct (decide (fp = new_filepath opts fn)); [by apply Hsame|].
  destruct (rows (db w) !! i); [|by apply Hsame].
  destruct (decide _); [|by apply Hsame].
  by exists (Some (IntegrityError (new_filepath opts fn))).
Qed.

Lemma compress_foldl_warnings (pil : Pillow) (opts : options) (rs : list record) (w : world) :
  ∃ errors, length errors = length rs
    ∧ shown (foldl (λ w r, compress_outcome pil opts r w) w rs)
      = shown w ++ warnings_of (λ r : record, CompressionError r.1.2) rs errors.
Proof.
  revert w. induction rs as [|r rs IH]; intros w; cbn [foldl].
  - exists []. by rewrite app_nil_r.
  - destruct (IH (compress_outcome pil opts r w)) as (errors & Hlen & ->).
    destruct (compress_outcome_warning pil opts r w) as [o ->].
    exists (o :: errors). split; [simpl; by rewrite Hlen|].
    by rewrite warnings_of_cons, app_assoc.
Qed.

Lemma warnings_of_length {A} (warning : A → exn → message) (items : list A)
    (errors : list (option exn)) :
  (length (warnings_of warning items errors) ≤ length items)%nat.
Proof.
  revert errors. induction items as [|x items IH]; intros [|o errors]; simpl; try lia.
  rewrite warnings_of_cons. rewrite length_app. specialize (IH errors).
  destruct o; simpl; lia.
Qed.

(** X21: what a compression batch shows.  With no rows: the one message that
    there is nothing to compress.  Otherwise: for each listed row, in the
    order of the listing, at most one warning, which names the file name of
    that row; then the closing message with the number of rows.  So a batch
    over [n] rows shows at most [n + 1] messages. *)
Theorem compress_all_messages (pil : Pillow) (opts : options) (w : world) :
  ∃ w', compress_all_images pil opts w = Some (Ok tt, w')
    ∧ match select_all_desc (db w) with
      | [] => shown w' = shown w ++ [NoImagesInDatabase]
      | snapshot =>
          ∃ errors, length errors = length snapshot
            ∧ shown w'
              = shown w
                ++ warnings_of (λ r : record, CompressionError r.1.2) snapshot errors
                ++ [CompressionComplete (size (rows (db w)))]
            ∧ (length (shown w') ≤ length (shown w) + size (rows (db w)) + 1)%nat
      end.
Proof.
  eexists. split; [apply compress_all_images_run|].
  pose proof (select_all_desc_length (db w)) as Hlen.
  destruct (select_all_desc (db w)) as [|r rs] eqn:E; [done|].
  destruct (compress_foldl_warnings pil opts (r :: rs) w) as (errors & Hl & Hs).
  exists errors. split; [done|]. cbn [shown]. rewrite Hs, Hlen, <-app_assoc.
  split; [done|]. rewrite !length_app.
  pose proof (warnings_of_length (λ r : record, CompressionError r.1.2) (r :: rs) errors).
  simpl in *. lia.
Qed.

Lemma add_files_messages (files : list string) (added_count : Z) (w : world) :
  ∃ added_count' w' errors,
    add_files files added_count w = Some (Ok added_count', w')
    ∧ length errors = length files
    ∧ (∀ i f e, files !! i = Some f → errors !! i = Some (Some e) →
         (e = FileNotFoundError f ∧ disk w !! f = None)
         ∨ (e = OperationalError ∧ ¬ has_room (db w')))
    ∧ shown w'
      = shown w ++ warnings_of (λ f, CouldNotAddImage (Py.basename f)) files errors
    ∧ (added_count ≤ added_count')%Z
    ∧ (added_count' - added_count
       + Z.of_nat (length (warnings_of (λ f, CouldNotAddImage (Py.basename f))
                             files errors))
       ≤ Z.of_nat (length files))%Z
    ∧ (∀ q, is_Some (disk w !! q) → is_Some (disk w' !! q))
    ∧ (next_rowid (db w) ≤ next_rowid (db w'))%Z.
Proof.
  revert added_count w. induction files as [|f rest IH]; intros c w.
  - exists c, w, []. simpl. rewrite app_nil_r.
    repeat split; try done; lia.
  - destruct (add_file_step f c w) as (c1 & w1 & p & E1 & Hfree & Hcase).
    destruct (IH c1 w1)
      as (c2 & w2 & errors & E2 & Hlen & Herr & Hs & Hle & Hsum & Hd & Hmono).
    assert (∃ o : option exn,
              shown w1 = shown w
                ++ match o with
                   | Some e => [CouldNotAddImage (Py.basename f) e]
                   | None => []
                   end
              ∧ (∀ e, o = Some e →
                   (e = FileNotFoundError f ∧ disk w !! f = None)
                   ∨ (e = OperationalError ∧ ¬ has_room (db w1)))
              ∧ (c ≤ c1)%Z
              ∧ (c1 - c + match o with Some _ => 1 | None => 0 end ≤ 1)%Z
              ∧ (∀ q, is_Some (disk w !! q) → is_Some (disk w1 !! q))
              ∧ (next_rowid (db w) ≤ next_rowid (db w1))%Z)
      as (o & Hs1 & Ho & Hle1 & Hsum1 & Hd1 & Hmono1).
    { assert (∀ x q, is_Some (disk w !! q) → is_Some (<[p := x]> (disk w) !! q)) as Hkeep.
      { intros x q Hq. rewrite lookup_insert_ne; [done|]. intros ->.
        rewrite Hfree in Hq. by destruct Hq. }
      destruct Hcase as [(Hf & -> & ->)|[(content & Hf & Hfull & -> & ->)
                          |[(content & Hf & _ & _ & -> & ->)
                           |(content & Hf & _ & _ & -> & ->)]]].
      - exists (Some (FileNotFoundError f)). cbn [shown disk db].
        split; [done|]. split; [intros x [= <-]; by left|]. repeat split; try done; lia.
      - exists (Some OperationalError). cbn [shown disk db].
        split; [done|]. split; [intros x [= <-]; by right|].
        split; [lia|]. split; [lia|]. split; [apply Hkeep|lia].
      - exists None. cbn [shown disk db]. rewrite app_nil_r.
        split; [done|]. split; [done|]. split; [lia|]. split; [lia|].
        split; [apply Hkeep|lia].
      - exists None. cbn [shown disk db]. rewrite app_nil_r.
        split; [done|]. split; [done|].
        split; [destruct (truthy _); lia|]. split; [destruct (truthy _); lia|].
        split; [apply Hkeep|]. rewrite next_rowid_inserted. lia. }
    exists c2, w2, (o :: errors). cbn [add_files]. unfold bind. rewrite E1.
    split; [done|]. split; [simpl; by rewrite Hlen|]. split.
    { intros [|i] g e Hg He; simpl in Hg, He.
      - injection Hg as <-. injection He as ->.
        destruct (Ho e eq_refl) as [?|[-> Hfull]]; [by left|]. right.
        split; [done|]. unfold has_room in *. lia.
      - destruct (Herr i g e Hg He) as [[-> Hnone]|?]; [|by right]. left.
        split; [done|].
        destruct (disk w !! g) eqn:Eg; [|done].
        destruct (Hd1 g) as [x Hx]; [by eexists|]. by rewrite Hx in Hnone. }
    split; [by rewrite warnings_of_cons, Hs, Hs1, <-app_assoc|].
    split; [lia|]. split.
    { rewrite warnings_of_cons, length_app. cbn [length].
      destruct o; simpl in *; lia. }
    split; [|lia]. intros q Hq. by apply Hd, Hd1.
Qed.

(** X22: what a drop shows.  With no usable file: the one message that no
    picture was dropped.  Otherwise: for each usable file, in the order of the
    drop, at most one warning, which names the base name of that file, and
    then the closing message with the count, which is not negative and, with
    the warnings, does not exceed the number of usable files.  A warning
    carries either the error that the file is missing, and then the file was
    missing when the drop began, or the error that the table is full, and
    then the table has no key left when the drop ends. *)
Theorem dropEvent_messages (us : list url) (w : world) :
  ∃ w', dropEvent us w = Some (Ok tt, w')
    ∧ match dropped_files us with
      | [] => shown w' = shown w ++ [NoImagesDropped]
      | files =>
          ∃ errors n, length errors = length files
            ∧ (∀ i f e, files !! i = Some f → errors !! i = Some (Some e) →
                 (e = FileNotFoundError f ∧ disk w !! f = None)
                 ∨ (e = OperationalError ∧ ¬ has_room (db w')))
            ∧ shown w'
              = shown w
                ++ warnings_of (λ f, CouldNotAddImage (Py.basename f)) files errors
                ++ [ImagesAdded n]
            ∧ (0 ≤ n)%Z
            ∧ (n + Z.of_nat (length (warnings_of
                                       (λ f, CouldNotAddImage (Py.basename f))
                                       files errors))
               ≤ Z.of_nat (length files))%Z
      end.
Proof.
  unfold dropEvent. destruct (dropped_files us) as [|f rest] eqn:E.
  - by eexists.
  - destruct (add_files_messages (f :: rest) 0 w)
      as (n & w1 & errors & E1 & Hlen & Herr & Hs & Hle & Hsum & _ & _).
    unfold bind. rewrite E1. eexists. split; [done|].
    exists errors, n. cbn [shown db]. rewrite Hs, <-app_assoc.
    split; [done|]. split; [exact Herr|]. split; [done|]. split; lia.
Qed.

(** ** [os.path] on the names of stored files *)

Lemma rfind_range (c : ascii) (s : string) :
  -1 ≤ Py.rfind c s < Z.of_nat (String.length s).
Proof.
  induction s as [|d s IH]; [simpl; lia|].
  cbn [Py.rfind String.length].
  destruct (Z.leb_spec 0 (Py.rfind c s)); [lia|]. destruct (Ascii.eqb c d); lia.
Qed.

Lemma rfind_app (c : ascii) (s t : string) :
  Py.rfind c (s +:+ t)
  = if Z.leb 0 (Py.rfind c t) then Z.of_nat (String.length s) + Py.rfind c t
    else Py.rfind c s.
Proof.
  pose proof (rfind_range c t) as Ht.
  induction s as [|d s IH].
  - change ("" +:+ t) with t. simpl. destruct (Z.leb_spec 0 (Py.rfind c t)); lia.
  - change (String d s +:+ t) with (String d (s +:+ t)).
    cbn [Py.rfind String.length]. rewrite IH.
    destruct (Z.leb_spec 0 (Py.rfind c t)); [|done].
    destruct (Z.leb_spec 0 (Z.of_nat (String.length s) + Py.rfind c t)); lia.
Qed.

Lemma rfind_app_none (c : ascii) (s t : string) :
  Py.rfind c (s +:+ t) = -1 ↔ Py.rfind c s = -1 ∧ Py.rfind c t = -1.
Proof.
  rewrite rfind_app. pose proof (rfind_range c t). pose proof (rfind_range c s).
  destruct (Z.leb_spec 0 (Py.rfind c t)); lia.
Qed.

Lemma rfind_drop (c : ascii) (n : nat) (s : string) :
  Py.rfind c (Py.drop n s)
  = if Z.leb (Z.of_nat n) (Py.rfind c s) then Py.rfind c s - Z.of_nat n else -1.
Proof.
  revert n. induction s as [|d s IH]; intros [|n].
  - done.
  - done.
  - cbn [Py.drop]. pose proof (rfind_range c (String d s)).
    destruct (Z.leb_spec (Z.of_nat 0) (Py.rfind c (String d s))); lia.
  - cbn [Py.drop]. rewrite IH. cbn [Py.rfind]. pose proof (rfind_range c s).
    destruct (Z.leb_spec 0 (Py.rfind c s)).
    + destruct (Z.leb_spec (Z.of_nat n) (Py.rfind c s)),
        (Z.leb_spec (Z.of_nat (S n)) (Py.rfind c s + 1)); lia.
    + destruct (Z.leb_spec (Z.of_nat n) (Py.rfind c s)); [lia|].
      destruct (Ascii.eqb c d);
        [destruct (Z.leb_spec (Z.of_nat (S n)) 0)
        |destruct (Z.leb_spec (Z.of_nat (S n)) (-1))]; lia.
Qed.

Lemma string_app_nil_r (s : string) : s +:+ "" = s.
Proof.
  induction s as [|d s IH]; [done|].
  change (String d (s +:+ "") = String d s). by rewrite IH.
Qed.

Lemma take_drop_string (n : nat) (s : string) : Py.take n s +:+ Py.drop n s = s.
Proof.
  revert n. induction s as [|d s IH]; intros [|n]; try done.
  cbn [Py.take Py.drop].
  change (String d (Py.take n s +:+ Py.drop n s) = String d s). by rewrite IH.
Qed.

Lemma drop_drop_string (n m : nat) (s : string) :
  Py.drop n (Py.drop m s) = Py.drop (m + n) s.
Proof.
  revert s. induction m as [|m IH]; intros s; [done|].
  destruct s as [|d s]; [by destruct n|]. cbn [Py.drop Nat.add]. apply IH.
Qed.

Lemma take_app_length (s t : string) : Py.take (String.length s) (s +:+ t) = s.
Proof.
  induction s as [|d s IH]; [by destruct t|].
  change (String d (Py.take (String.length s) (s +:+ t)) = String d s). by rewrite IH.
Qed.

Lemma drop_app_length (s t : string) : Py.drop (String.length s) (s +:+ t) = t.
Proof. induction s as [|d s IH]; [done|]. exact IH. Qed.

Lemma take_app_le (n : nat) (s t : string) :
  (n ≤ String.length s)%nat → Py.take n (s +:+ t) = Py.take n s.
Proof.
  revert n. induction s as [|d s IH]; intros [|n] Hn; simpl in Hn; try done; try lia.
  change (String d (Py.take n (s +:+ t)) = String d (Py.take n s)).
  rewrite IH; [done|lia].
Qed.

Lemma all_dots_app (s t : string) :
  Py.all_dots (s +:+ t) = Py.all_dots s && Py.all_dots t.
Proof.
  induction s as [|d s IH]; [done|].
  change (Py.all_dots (String d (s +:+ t)) = Py.all_dots (String d s) && Py.all_dots t).
  cbn [Py.all_dots]. rewrite IH. by destruct (Ascii.eqb "." d).
Qed.

(** [splitext] cuts its argument in two. *)
Lemma splitext_app (p : string) : (Py.splitext p).1 +:+ (Py.splitext p).2 = p.
Proof.
  unfold Py.splitext. destruct (Z.ltb _ _); [|apply string_app_nil_r].
  destruct (Py.has_non_dot _ _ _); [apply take_drop_string|].
  apply string_app_nil_r.
Qed.

(** [basename] has no directory part, and keeps the extension. *)
Lemma basename_no_slash (p : string) : Py.rfind "/" (Py.basename p) = -1.
Proof.
  unfold Py.basename. rewrite rfind_drop. pose proof (rfind_range "/" p).
  rewrite Z2Nat.id by lia. destruct (Z.leb_spec (Py.rfind "/" p + 1) (Py.rfind "/" p)); lia.
Qed.

Lemma splitext_basename (p : string) :
  (Py.splitext (Py.basename p)).2 = (Py.splitext p).2.
Proof.
  pose proof (basename_no_slash p) as Hsep.
  pose proof (rfind_range "/" p) as Hr. pose proof (rfind_range "." p) as Hd.
  unfold Py.splitext at 1. rewrite Hsep.
  unfold Py.basename. rewrite rfind_drop. rewrite Z2Nat.id by lia.
  unfold Py.splitext.
  destruct (Z.leb_spec (Py.rfind "/" p + 1) (Py.rfind "." p)) as [Hle|Hgt].
  - assert (Z.ltb (-1) (Py.rfind "." p - (Py.rfind "/" p + 1)) = true) as ->
      by (apply Z.ltb_lt; lia).
    assert (Z.ltb (Py.rfind "/" p) (Py.rfind "." p) = true) as ->
      by (apply Z.ltb_lt; lia).
    change (-1 + 1) with 0. rewrite Z.sub_0_r.
    unfold Py.has_non_dot. change (Z.to_nat 0) with 0%nat. cbn [Py.drop].
    destruct (negb _); [|done]. cbn [snd]. rewrite drop_drop_string. f_equal. lia.
  - change (Z.ltb (-1) (-1)) with false.
    assert (Z.ltb (Py.rfind "/" p) (Py.rfind "." p) = false) as ->
      by (apply Z.ltb_ge; lia).
    done.
Qed.

(** [splitext] on a name without directory part. *)
Lemma splitext_name (s : string) :
  Py.rfind "/" s = -1 →
  Py.splitext s
  = if Z.leb 0 (Py.rfind "." s)
       && negb (Py.all_dots (Py.take (Z.to_nat (Py.rfind "." s)) s))
    then (Py.take (Z.to_nat (Py.rfind "." s)) s, Py.drop (Z.to_nat (Py.rfind "." s)) s)
    else (s, "").
Proof.
  intros Hsep. unfold Py.splitext, Py.has_non_dot. rewrite Hsep.
  change (-1 + 1) with 0. rewrite Z.sub_0_r. change (Z.to_nat 0) with 0%nat.
  cbn [Py.drop].
  destruct (Z.ltb_spec (-1) (Py.rfind "." s)), (Z.leb_spec 0 (Py.rfind "." s));
    try lia; done.
Qed.

(** Putting a piece between base and extension keeps the extension. *)
Lemma splitext_infix (name mid : string) :
  Py.rfind "/" name = -1 → Py.rfind "/" mid = -1 → Py.rfind "." mid = -1 →
  (Py.splitext ((Py.splitext name).1 +:+ mid +:+ (Py.splitext name).2)).2
  = (Py.splitext name).2.
Proof.
  intros Hsep Hmid Hdot.
  pose proof (rfind_range "." name) as Hr.
  pose proof (splitext_app name) as Happ. revert Happ.
  rewrite (splitext_name name Hsep).
  destruct (Z.leb_spec 0 (Py.rfind "." name)) as [Hle|Hlt]; cbn [andb].
  - destruct (Py.all_dots (Py.take (Z.to_nat (Py.rfind "." name)) name)) eqn:Hall;
      cbn [negb fst snd]; intros Happ.
    + (* only dots before the last dot: no extension *)
      rewrite (string_app_nil_r mid).
      rewrite splitext_name by by apply rfind_app_none.
      rewrite (rfind_app "." name mid), Hdot. change (Z.leb 0 (-1)) with false.
      cbv iota. rewrite take_app_le by lia. rewrite Hall.
      by rewrite andb_false_r.
    + (* a proper extension *)
      set (base := Py.take (Z.to_nat (Py.rfind "." name)) name) in *.
      set (ext := Py.drop (Z.to_nat (Py.rfind "." name)) name) in *.
      assert (Py.rfind "." ext = 0) as Hext.
      { unfold ext. rewrite rfind_drop. rewrite Z2Nat.id by lia.
        rewrite Z.leb_refl. lia. }
      assert (Py.rfind "/" base = -1 ∧ Py.rfind "/" ext = -1) as [Hb He].
      { apply rfind_app_none. by rewrite Happ. }
      rewrite string_app_assoc.
      rewrite splitext_name.
      2:{ apply rfind_app_none. split; [by apply rfind_app_none|done]. }
      rewrite (rfind_app "." (base +:+ mid) ext), Hext. change (Z.leb 0 0) with true.
      cbv iota. rewrite Z.add_0_r, Nat2Z.id.
      assert (Z.leb 0 (Z.of_nat (String.length (base +:+ mid))) = true) as ->
        by (apply Z.leb_le; lia).
      rewrite take_app_length, all_dots_app, Hall. cbn [andb negb snd].
      apply drop_app_length.
  - (* no dot at all *)
    cbn [fst snd]. intros _. rewrite (string_app_nil_r mid).
    rewrite splitext_name by by apply rfind_app_none.
    rewrite (rfind_app "." name mid), Hdot. change (Z.leb 0 (-1)) with false.
    cbv iota. by destruct (Z.leb_spec 0 (Py.rfind "." name)); [lia|].
Qed.

Lemma pretty_N_go_rfind (c : ascii) (x : N) (s : string) :
  (∀ d, pretty_N_char d ≠ c) →
  Py.rfind c s = -1 → Py.rfind c (pretty_N_go x s) = -1.
Proof.
  intros Hc. revert s. induction (N.lt_wf_0 x) as [x _ IH]; intros s Hs.
  destruct (decide (x = 0)%N) as [->|Hx]; [by rewrite pretty_N_go_0|].
  rewrite pretty_N_go_step by lia. apply IH; [apply N.div_lt; lia|].
  cbn [Py.rfind]. rewrite Hs. change (Z.leb 0 (-1)) with false. cbv iota.
  destruct (Ascii.eqb_spec c (pretty_N_char (x `mod` 10))) as [->|]; [|done].
  by destruct (Hc (x `mod` 10)%N).
Qed.

Lemma pretty_N_rfind (c : ascii) (k : N) :
  (∀ d, pretty_N_char d ≠ c) → Py.rfind c (pretty k) = -1.
Proof.
  intros Hc. unfold pretty, pretty_N. destruct (decide (k = 0)%N).
  - cbn. destruct (Ascii.eqb_spec c "0") as [->|]; [|done]. by destruct (Hc 0%N).
  - by apply pretty_N_go_rfind.
Qed.

Lemma digits_are_no_slash (d : N) : pretty_N_char d ≠ "/"%char.
Proof. unfold pretty_N_char. by repeat case_match. Qed.

Lemma digits_are_no_dot (d : N) : pretty_N_char d ≠ "."%char.
Proof. unfold pretty_N_char. by repeat case_match. Qed.

(** A name without directory part, joined to [IMAGES_DIR]. *)
Lemma join_name (name : string) :
  Py.rfind "/" name = -1 →
  Py.join IMAGES_DIR name = "stored_images/" +:+ name
  ∧ Py.basename (Py.join IMAGES_DIR name) = name.
Proof.
  intros Hname.
  assert (Py.startswith "/" name = false) as Hstart.
  { destruct name as [|d name]; [done|]. revert Hname.
    cbn [Py.rfind Py.startswith]. pose proof (rfind_range "/" name).
    destruct (Z.leb_spec 0 (Py.rfind "/" name)); [lia|].
    by destruct (Ascii.eqb "/" d). }
  rewrite join_images_dir, Hstart. split; [done|].
  unfold Py.basename. rewrite rfind_app, Hname. change (Z.leb 0 (-1)) with false.
  cbv iota. by vm_compute.
Qed.

(** The name [choose_target] settles on. *)
Lemma choose_target_name (f : string) (w : world) (p : string) :
  choose_target (Py.basename f) w = Some (Ok p, w) →
  ∃ name, Py.rfind "/" name = -1
    ∧ p = Py.join IMAGES_DIR name
    ∧ (Py.splitext name).2 = (Py.splitext f).2.
Proof.
  intros Hp.
  destruct (choose_target_spec (Py.basename f) w) as (p' & Hp' & _ & _ & Hshape).
  rewrite Hp' in Hp. injection Hp as ->.
  pose proof (basename_no_slash f) as Hbase.
  destruct (path_exists _ _).
  - destruct Hshape as (k & _ & -> & _). unfold suffixed.
    pose proof (splitext_app (Py.basename f)) as Happ.
    assert (Py.rfind "/" (Py.splitext (Py.basename f)).1 = -1
            ∧ Py.rfind "/" (Py.splitext (Py.basename f)).2 = -1) as [Hb He].
    { apply rfind_app_none. by rewrite Happ. }
    assert (Py.rfind "/" ("_" +:+ pretty k) = -1) as Hmid.
    { apply rfind_app_none. split; [done|].
      apply pretty_N_rfind, digits_are_no_slash. }
    assert (Py.rfind "." ("_" +:+ pretty k) = -1) as Hdot.
    { apply rfind_app_none. split; [done|].
      apply pretty_N_rfind, digits_are_no_dot. }
    eexists. split; [|split; [done|]].
    + apply rfind_app_none. split; [done|].
      rewrite string_app_assoc. by apply rfind_app_none.
    + rewrite (string_app_assoc "_").
      rewrite (splitext_infix (Py.basename f) ("_" +:+ pretty k)) by done.
      apply splitext_basename.
  - subst p. exists (Py.basename f). split; [done|]. split; [done|].
    apply splitext_basename.
Qed.

Lemma elem_of_dropped_files (us : list url) (f : string) :
  f ∈ dropped_files us → is_supported f = true.
Proof.
  induction us as [|u us IH]; simpl; [by intros ?%elem_of_nil|].
  destruct (isLocalFile u); [|done].
  destruct (is_supported (toLocalFile u)) eqn:E; [|done].
  intros [->|?]%elem_of_cons; [done|by apply IH].
Qed.

Lemma stored_as_supported (f : string) (e : entry) :
  stored_as f e → is_supported f = true → is_supported (filepath e) = true.
Proof.
  intros (Hname & Hpath & Hext) Hf. unfold is_supported in *.
  destruct (join_name (filename e) Hname) as [Hjoin Hbase].
  assert (filepath e = Py.join IMAGES_DIR (filename e)) as Hp by by rewrite Hjoin.
  rewrite <-(splitext_basename (filepath e)), Hp, Hbase. by rewrite Hext.
Qed.

Lemma add_files_stored (all : list string) (R : Z → entry → Prop)
    (files : list string) (added_count : Z) (w : world) :
  (∀ f, f ∈ files → f ∈ all) →
  (∀ i e, rows (db w) !! i = Some e → R i e ∨ ∃ f, f ∈ all ∧ stored_as f e) →
  ∃ added_count' w', add_files files added_count w = Some (Ok added_count', w')
    ∧ ∀ i e, rows (db w') !! i = Some e → R i e ∨ ∃ f, f ∈ all ∧ stored_as f e.
Proof.
  revert added_count w. induction files as [|f rest IH]; intros c w Hall Hrows.
  - by exists c, w.
  - destruct (add_file_cases f c w) as (p & Hp & _ & E).
    cbn [add_files]. unfold bind. rewrite E.
    apply IH; [intros g Hg; apply Hall; by right|].
    unfold add_file_outcome. destruct (disk w !! f) as [content|]; [|done].
    destruct (decide (max_rowid < next_rowid (db w))); [done|].
    destruct (decide (path_held_by_other None p (db w))); [done|].
    cbn [snd db inserted rows]. intros i e Hi.
    destruct (decide (i = next_rowid (db w))) as [->|Hne].
    + rewrite lookup_insert_eq in Hi. injection Hi as <-. right. exists f.
      split; [apply Hall; by left|].
      destruct (choose_target_name f w p Hp) as (name & Hname & -> & Hext).
      destruct (join_name name Hname) as [Hjoin Hbase].
      unfold stored_as. cbn [filename filepath]. rewrite Hbase.
      split; [done|]. split; [by rewrite Hjoin|done].
    + rewrite lookup_insert_ne in Hi by done. by apply Hrows.
Qed.

(** X23: the rows a drop creates are stored under their own names.  Every
    row of the table after a drop was there before, or stands for one of the
    usable files of the drop: its file name has no directory part, its path
    is that name directly inside [stored_images], and the name, numbered or
    not, has kept the extension of the dropped file, so that the stored path
    still passes the extension test of the drop. *)
Theorem dropped_rows_are_stored_under_their_names (us : list url) (w w' : world) :
  dropEvent us w = Some (Ok tt, w') →
  ∀ i e, rows (db w') !! i = Some e →
    rows (db w) !! i = Some e
    ∨ ∃ f, f ∈ dropped_files us ∧ stored_as f e ∧ is_supported (filepath e) = true.
Proof.
  unfold dropEvent. intros Hrun i e Hi.
  assert (∀ w1, (∀ i e, rows (db w1) !! i = Some e →
                   rows (db w) !! i = Some e
                   ∨ ∃ f, f ∈ dropped_files us ∧ stored_as f e) →
            rows (db w1) !! i = Some e →
            rows (db w) !! i = Some e
            ∨ ∃ f, f ∈ dropped_files us ∧ stored_as f e
                ∧ is_supported (filepath e) = true) as Hfin.
  { intros w1 H1 He. destruct (H1 i e He) as [?|(f & Hf & Hst)]; [by left|].
    right. exists f. split; [done|]. split; [done|].
    eapply stored_as_supported; [done|]. by eapply elem_of_dropped_files. }
  destruct (dropped_files us) as [|f rest] eqn:Efiles.
  - injection Hrun as <-. apply (Hfin w); [by left|done].
  - destruct (add_files_stored (f :: rest) (λ i e, rows (db w) !! i = Some e)
                (f :: rest) 0 w) as (n & w1 & E1 & H1); [done|by left|].
    unfold bind in Hrun. rewrite E1 in Hrun. injection Hrun as <-.
    by apply (Hfin w1).
Qed.

Lemma dropped_rows_are_stored_under_their_names_witness :
  let us := [Url true "/home/a/photo.png"; Url true "/home/b/photo.png"] in
  let e := Entry "photo_2.png" "stored_images/photo_2.png" in
  rows (db album) !! 3 = Some e
  ∨ ∃ f, f ∈ dropped_files us ∧ stored_as f e ∧ is_supported (filepath e) = true.
Proof.
  intros us e.
  apply (dropped_rows_are_stored_under_their_names us album
           (state_after (dropEvent us) album)); by vm_compute.
Defined.

Lemma drop_app_le (n : nat) (s t : string) :
  (n ≤ String.length s)%nat → Py.drop n (s +:+ t) = Py.drop n s +:+ t.
Proof.
  revert n. induction s as [|d s IH]; intros [|n] Hn; simpl in Hn; try done; try lia.
  change (Py.drop n (s +:+ t) = Py.drop n s +:+ t). apply IH. lia.
Qed.

Lemma drop_length (n : nat) (s : string) :
  String.length (Py.drop n s) = (String.length s - n)%nat.
Proof. revert n. induction s as [|d s IH]; intros [|n]; try done. apply IH. Qed.

(** A name that ends in a stem, a dot and a dotless word splits there. *)
Lemma splitext_dotted (x stem ext : string) :
  Py.rfind "/" stem = -1 → Py.all_dots stem = false →
  Py.rfind "/" ext = -1 → Py.rfind "." ext = -1 →
  Py.splitext ((x +:+ stem) +:+ "." +:+ ext) = (x +:+ stem, "." +:+ ext).
Proof.
  intros Hstem Hdots Hsep Hdot.
  pose proof (rfind_range "/" x) as Hx.
  assert (Py.rfind "." ("." +:+ ext) = 0) as Hdot'.
  { change ("." +:+ ext) with (String "." ext). cbn [Py.rfind]. rewrite Hdot.
    by vm_compute. }
  assert (Py.rfind "/" ("." +:+ ext) = -1) as Hsep'.
  { change ("." +:+ ext) with (String "." ext). cbn [Py.rfind]. rewrite Hsep.
    by vm_compute. }
  unfold Py.splitext, Py.has_non_dot.
  rewrite (rfind_app "/" (x +:+ stem)), Hsep'. change (Z.leb 0 (-1)) with false.
  cbv iota. rewrite (rfind_app "/" x stem), Hstem. change (Z.leb 0 (-1)) with false.
  cbv iota. rewrite (rfind_app "." (x +:+ stem)), Hdot'. change (Z.leb 0 0) with true.
  cbv iota. rewrite Z.add_0_r, string_length_app.
  assert (Z.ltb (Py.rfind "/" x) (Z.of_nat (String.length x + String.length stem)) = true)
    as -> by (apply Z.ltb_lt; lia).
  rewrite Nat2Z.id.
  rewrite <-(string_app_assoc x stem), (drop_app_le _ x) by lia.
  assert (Z.to_nat (Z.of_nat (String.length x + String.length stem)
                    - (Py.rfind "/" x + 1))
          = String.length (Py.drop (Z.to_nat (Py.rfind "/" x + 1)) x +:+ stem)) as ->.
  { rewrite string_length_app, drop_length. lia. }
  rewrite (string_app_assoc _ stem), take_app_length, all_dots_app, Hdots, andb_false_r.
  cbn [negb]. rewrite (string_app_assoc x stem).
  rewrite <-string_length_app. by rewrite take_app_length, drop_app_length.
Qed.

(** X24: the output of a compression run carries the extension of its format,
    whatever the file name of the row is: the output path splits into a base
    and the lower-cased format name after a dot.  That extension is one of
    those a drop accepts, for every format the dialog offers. *)
Theorem output_path_has_the_format_extension (opts : options) (fname : string) :
  (Py.splitext (new_filepath opts fname)).2
  = "." +:+ Py.lower (format_name (format opts))
  ∧ is_supported (new_filepath opts fname) = true.
Proof.
  assert ((Py.splitext (new_filepath opts fname)).2
          = "." +:+ Py.lower (format_name (format opts))) as Hext.
  { unfold new_filepath, new_filename. rewrite join_images_dir.
    set (ext := Py.lower (format_name (format opts))).
    assert (Py.rfind "/" ext = -1 ∧ Py.rfind "." ext = -1) as [Hsep Hdot]
      by (unfold ext; by destruct (format opts)).
    change ("_compressed." +:+ ext) with ("_compressed" +:+ "." +:+ ext).
    destruct (Py.startswith _ _).
    - rewrite (string_app_assoc _ "_compressed").
      by rewrite splitext_dotted.
    - rewrite (string_app_assoc _ "_compressed"), (string_app_assoc "stored_images/").
      rewrite (string_app_assoc "stored_images/" _ "_compressed").
      by rewrite splitext_dotted. }
  split; [done|]. unfold is_supported. rewrite Hext. by destruct (format opts).
Qed.
